(** * Joint verifiable secret sharing (package [poly], file [joint.go])

    A shallow embedding of the dealer / receiver layer of the Pedersen
    style distributed secret sharing of [poly/joint.go], together with the
    properties of [Receiver.AddDealer], [Receiver.ProduceSharedSecret] and
    [Dealer.Certified].

    Conventions.
    - A Go [int] is a [Z].  The only arithmetic on ints in [joint.go] is
      the counter [goodShare] and the loop position, both bounded by
      [len(r.Dealers)], so no wrap-around can occur.
    - A Go [error] result is an [option error] ([None] is [nil]); a pair
      [(value, error)] of which exactly one is [nil] at every [return] is a
      [res]; a pair that is passed through unchanged from a callee stays a
      pair of options.
    - [*Dealer] is a location in a store of dealers, since a dealer is
      shared between its owner and every receiver that accepted it.
      Dereferencing a location that is not allocated (Go's [nil]) panics.
    - Each [errors.New(fmt.Sprintf(...))] of the source is one constructor
      of [error] carrying the formatted arguments. *)

From stdpp Require Import base option list gmap.
From Stdlib Require Import ZArith Lia.

Local Open Scope Z_scope.

(** ** The group suite ([abstract.Suite])

    The interface of the group the polynomials live in.  It is consumed,
    never implemented, by [joint.go]. *)
Class Suite := {
  Secret : Type;                          (* abstract.Secret : a scalar *)
  Point : Type;                           (* abstract.Point : a group element *)
  Point_Equal :: EqDecision Point;        (* Point.Equal *)
  Secret_Zero : Secret;                   (* Suite.Secret() : a fresh, zero scalar *)
  Secret_SetInt64 : Z → Secret;           (* Secret.SetInt64 *)
  Secret_Add : Secret → Secret → Secret;  (* Secret.Add *)
  Point_Null : Point;                     (* Point.Null : the identity *)
  Point_Base : Point;                     (* Point.Base : the standard generator *)
  Point_Add : Point → Point → Point;      (* Point.Add *)
  Point_Mul : Point → Secret → Point;     (* Point.Mul : scalar multiplication *)
}.

(** Outcome of a call: it returns, or the Go runtime panics. *)
Inductive outcome (A : Type) : Type :=
| Return (a : A)
| Panicked.
Arguments Return {A} a.
Arguments Panicked {A}.

(** The errors.  The first five are the five [errors.New] of [joint.go];
    the others are the kinds the specification gives for the promise
    package. *)
Inductive error : Type :=
| ErrWrongIndex (index bound : Z)
    (* "Wrong index received for receiver : %d instead of %d" *)
| ErrNoDealers
    (* "Receiver has 0 Dealers in its data.Can't produce SharedSecret." *)
| ErrReveal (receiver dealer : Z) (cause : error)
    (* "Receiver %d could not reveal its share from Dealer %d promise : %v" *)
| ErrNotEnoughShares
    (* "Not enough shares received by the Receiver to construct ..." *)
| ErrCheck
    (* "Receiver's secret share of the shared secret could not be checked ..." *)
| ErrValidation (index : Z)               (* ValidationFailure *)
| ErrOutOfRange (index : Z)               (* OutOfRangeIndex *)
| ErrDuplicateResponse (index : Z)        (* DuplicateResponse *)
| ErrCertification (have need : Z)        (* CertificationShortfall *)
| ErrNoShare (index : Z).

Inductive res (A : Type) : Type :=
| Ok (a : A)
| Err (e : error).
Arguments Ok {A} a.
Arguments Err {A} e.

(** [PolyInfo], lines 16-25.  The [Suite] field is the ambient instance of
    the class. *)
Record PolyInfo := mkPolyInfo {
  info_T : Z;   (* how many peers are needed to reconstruct a secret *)
  info_R : Z;   (* how many peers are needed to verify *)
  info_N : Z;   (* how many peers collaborate *)
}.

Section Joint.
Context `{suite : Suite}.

(** [config.KeyPair]. *)
Record KeyPair := mkKeyPair {
  kp_Public : Point;
  kp_Secret : Secret;
}.

(** ** Public polynomials *)

(** Modelled from the spec: the type [PubPoly], which [joint.go] uses and
    does not declare: a base point and the sequence of committed
    coefficients, lowest degree first. *)
Record PubPoly := mkPubPoly {
  pp_b : Point;
  pp_p : list Point;
}.

(** Modelled from the spec: [PubPoly.InitNull], missing from the sources:
    [t] coefficients, all of them the identity of the group. *)
Definition PubPoly_InitNull (t : Z) (b : Point) : PubPoly :=
  {| pp_b := b; pp_p := replicate (Z.to_nat t) Point_Null |}.

(** Modelled from the spec: [PubPoly.Add], missing from the sources: the
    coefficient-wise sum of two polynomials of one degree; it fails ([None])
    when the degrees differ.  [joint.go] does not look at what [Add]
    returns, so that a failure can only be a panic there. *)
Definition PubPoly_Add (a b : PubPoly) : option PubPoly :=
  if decide (length (pp_p a) = length (pp_p b)) then
    Some {| pp_b := pp_b a; pp_p := zip_with Point_Add (pp_p a) (pp_p b) |}
  else None.

(** Modelled from the spec: the evaluation behind [PubPoly.Check], missing
    from the sources: the committed polynomial evaluated at [index], by
    Horner's rule in the group. *)
Definition PubPoly_Eval (p : PubPoly) (index : Z) : Point :=
  foldr (λ c acc, Point_Add (Point_Mul acc (Secret_SetInt64 index)) c)
        Point_Null (pp_p p).

(** Modelled from the spec: [PubPoly.Check], missing from the sources: does
    the polynomial at [index] equal the group's representation of [share]. *)
Definition PubPoly_Check (p : PubPoly) (index : Z) (share : Secret) : bool :=
  bool_decide (PubPoly_Eval p index = Point_Mul (pp_b p) share).

(** ** Promises, responses and the state of a promise *)

(** Modelled from the spec: the type [Promise], missing from the sources:
    the thresholds it was built with, the committed polynomial and, for
    each receiver index in [0, N), that receiver's protected share. *)
Record Promise := mkPromise {
  p_t : Z;
  p_r : Z;
  p_pubPoly : PubPoly;
  p_secrets : list Secret;
}.

(** Modelled from the spec: what the promise package takes from the
    key pairs and the suite and the specification does not fix: how a
    promise is built, how a share is recovered with the private key of its
    receiver, what a response is and when it matches a promise. *)
Class PromiseScheme := {
  Response : Type;
  ConstructPromise : KeyPair → KeyPair → Z → Z → list Point → Promise;
  share_recover : KeyPair → Secret → Secret;
  Response_make : Promise → Z → KeyPair → Response;
  Response_verify : Promise → Z → Response → bool;
}.
Context `{scheme : PromiseScheme}.

(** The protected share a promise holds for [index], if any. *)
Definition Promise_share (p : Promise) (index : Z) : option Secret :=
  if decide (0 ≤ index) then p_secrets p !! Z.to_nat index else None.

(** Modelled from the spec: [Promise.PubPoly], missing from the sources. *)
Definition Promise_PubPoly (p : Promise) : PubPoly := p_pubPoly p.

(** Modelled from the spec: [Promise.ProduceResponse], missing from the
    sources: the receiver recovers its share, verifies it with [Check] and
    answers with a response, or fails with a validation error. *)
Definition Promise_ProduceResponse (p : Promise) (index : Z) (key : KeyPair)
  : option Response * option error :=
  match Promise_share p index with
  | None => (None, Some (ErrValidation index))
  | Some c =>
      if PubPoly_Check (p_pubPoly p) index (share_recover key c)
      then (Some (Response_make p index key), None)
      else (None, Some (ErrValidation index))
  end.

(** Modelled from the spec: the type [State], missing from the sources: the
    promise and the accepted responses, at most one for an index. *)
Record State := mkState {
  st_Promise : Promise;
  st_responses : gmap Z Response;
}.

(** Modelled from the spec: [State.Init], missing from the sources. *)
Definition State_Init (p : Promise) : State :=
  {| st_Promise := p; st_responses := ∅ |}.

(** Number of responses accepted so far. *)
Definition State_count (s : State) : Z := Z.of_nat (size (st_responses s)).

(** Modelled from the spec: [State.AddResponse], missing from the sources:
    it fails when the index is out of range, when a response is already
    recorded for the index, or when the response does not match the
    promise; otherwise it records the response. *)
Definition State_AddResponse (s : State) (i : Z) (response : Response)
  : State * option error :=
  if decide (0 ≤ i < Z.of_nat (length (p_secrets (st_Promise s)))) then
    match st_responses s !! i with
    | Some _ => (s, Some (ErrDuplicateResponse i))
    | None =>
        if Response_verify (st_Promise s) i response
        then ({| st_Promise := st_Promise s;
                 st_responses := <[i := response]> (st_responses s) |}, None)
        else (s, Some (ErrValidation i))
    end
  else (s, Some (ErrOutOfRange i)).

(** Modelled from the spec: [State.PromiseCertified], missing from the
    sources: [nil] once at least [R] responses are accepted, an error that
    tells the shortfall before. *)
Definition State_PromiseCertified (s : State) : option error :=
  if decide (p_r (st_Promise s) ≤ State_count s) then None
  else Some (ErrCertification (State_count s) (p_r (st_Promise s))).

(** Modelled from the spec: [State.RevealShare], missing from the sources:
    the share of [index], recovered with the key pair of the requester; it
    fails when the promise is not certified or has no share for [index]. *)
Definition State_RevealShare (s : State) (index : Z) (key : KeyPair)
  : res Secret :=
  match State_PromiseCertified s with
  | Some e => Err e
  | None =>
      match Promise_share (st_Promise s) index with
      | None => Err (ErrNoShare index)
      | Some c => Ok (share_recover key c)
      end
  end.

(** ** Dealers, lines 43-103 *)

Record Dealer := mkDealer {
  d_info : PolyInfo;
  d_Promise : Promise;
  d_State : State;
}.

(** [Dealer.Init], lines 88-93, and [NewDealer], lines 82-84. *)
Definition Dealer_Init (info : PolyInfo) (secret promiser : KeyPair)
    (receiverList : list Point) : Dealer :=
  let promise :=
    ConstructPromise secret promiser (info_T info) (info_R info) receiverList in
  {| d_info := info; d_Promise := promise; d_State := State_Init promise |}.

Definition NewDealer := Dealer_Init.

(** A [*Dealer], and the store the dealers live in. *)
Definition loc := positive.
Abbreviation store := (gmap loc Dealer).

(** [Dealer.AddResponse], lines 96-98. *)
Definition Dealer_AddResponse (h : store) (d : loc) (i : Z) (response : Response)
  : outcome (store * option error) :=
  match h !! d with
  | None => Panicked
  | Some dl =>
      let '(st, e) := State_AddResponse (d_State dl) i response in
      Return (<[d := {| d_info := d_info dl; d_Promise := d_Promise dl;
                        d_State := st |}]> h, e)
  end.

(** [Dealer.Certified], lines 101-103. *)
Definition Dealer_Certified (h : store) (d : loc) : outcome (option error) :=
  match h !! d with
  | None => Panicked
  | Some dl => Return (State_PromiseCertified (d_State dl))
  end.

(** ** Receivers, lines 58-182 *)

Record SharedSecret := mkSharedSecret {
  ss_Pub : PubPoly;
  ss_Share : Secret;
  ss_Index : Z;
}.

Record Receiver := mkReceiver {
  r_info : PolyInfo;
  r_index : Z;
  r_Key : KeyPair;
  r_Dealers : list loc;
  r_Secret : option SharedSecret;  (* assigned by no function of the file *)
}.

(** [Receiver.Init], lines 112-118.  [make] panics when the capacity is
    negative, and when it is beyond [maxCap], the largest capacity for which
    the runtime allocates a slice of pointers (it depends on the platform).
    The field [Secret] is left as it is. *)
Definition Receiver_Init (maxCap : Z) (r : Receiver) (info : PolyInfo)
    (key : KeyPair) : outcome Receiver :=
  if decide (info_N info < 0 ∨ maxCap < info_N info) then Panicked
  else Return {| r_index := -1; r_info := info; r_Key := key;
                 r_Dealers := []; r_Secret := r_Secret r |}.

(** [NewReceiver], lines 105-107: [Init] on a zero value, of which [Init]
    overwrites every field but [Secret]. *)
Definition NewReceiver (maxCap : Z) (info : PolyInfo) (key : KeyPair)
  : outcome Receiver :=
  Receiver_Init maxCap {| r_info := mkPolyInfo 0 0 0; r_index := 0; r_Key := key;
                   r_Dealers := []; r_Secret := None |} info key.

(** [Receiver.AddDealer], lines 123-134. *)
Definition Receiver_AddDealer (h : store) (r : Receiver) (index : Z) (dealer : loc)
  : outcome (Receiver * (option Response * option error)) :=
  let r1 :=
    if decide (r_index r = -1)
    then {| r_info := r_info r; r_index := index; r_Key := r_Key r;
            r_Dealers := r_Dealers r; r_Secret := r_Secret r |}
    else r in
  if decide (r_index r1 ≠ index) then
    Return (r1, (None, Some (ErrWrongIndex index (r_index r1))))
  else
    match h !! dealer with
    | None => Panicked
    | Some dl =>
        let '(resp, err) := Promise_ProduceResponse (d_Promise dl) index (r_Key r1) in
        Return ({| r_info := r_info r1; r_index := r_index r1; r_Key := r_Key r1;
                   r_Dealers := r_Dealers r1 ++ [dealer];
                   r_Secret := r_Secret r1 |}, (resp, err))
    end.

(** The loop of [Receiver.ProduceSharedSecret], lines 147-167, over the
    dealers still to visit: [index] is the position of the first of them,
    [share], [pub] and [goodShare] the variables of the function. *)
Fixpoint ProduceSharedSecret_loop (h : store) (r : Receiver) (dealers : list loc)
    (index : Z) (share : Secret) (pub : PubPoly) (goodShare : Z)
  : outcome (res (Secret * PubPoly * Z)) :=
  match dealers with
  | [] => Return (Ok (share, pub, goodShare))
  | d :: rest =>
      if decide (goodShare >= info_T (r_info r)) then
        Return (Ok (share, pub, goodShare))                      (* break *)
      else
        match h !! d with
        | None => Panicked
        | Some dl =>
            match State_RevealShare (d_State dl) (r_index r) (r_Key r) with
            | Err e => Return (Err (ErrReveal (r_index r) index e))
            | Ok s =>
                match PubPoly_Add pub (Promise_PubPoly (d_Promise dl)) with
                | None => Panicked
                | Some pub' =>
                    ProduceSharedSecret_loop h r rest (index + 1)
                      (Secret_Add share s) pub' (goodShare + 1)
                end
            end
        end
  end.

(** [Receiver.ProduceSharedSecret], lines 138-182. *)
Definition Receiver_ProduceSharedSecret (h : store) (r : Receiver)
  : outcome (res SharedSecret) :=
  if decide (length (r_Dealers r) < 1)%nat then Return (Err ErrNoDealers)
  else
    let pub := PubPoly_InitNull (info_T (r_info r)) Point_Base in
    let share := Secret_Zero in
    match ProduceSharedSecret_loop h r (r_Dealers r) 0 share pub 0 with
    | Panicked => Panicked
    | Return (Err e) => Return (Err e)
    | Return (Ok (share, pub, goodShare)) =>
        if decide (goodShare < info_T (r_info r)) then
          Return (Err ErrNotEnoughShares)
        else if negb (PubPoly_Check pub (r_index r) share) then
          Return (Err ErrCheck)
        else
          Return (Ok {| ss_Pub := pub; ss_Share := share; ss_Index := r_index r |})
    end.

(** ** Notions used to state the properties *)

(** What the loop of [ProduceSharedSecret] obtains from the dealer at [d]
    when [RevealShare] succeeds: the revealed share and the public
    polynomial of the promise. *)
Definition revealed (h : store) (r : Receiver) (d : loc)
  : option (Secret * PubPoly) :=
  match h !! d with
  | None => None
  | Some dl =>
      match State_RevealShare (d_State dl) (r_index r) (r_Key r) with
      | Ok s => Some (s, Promise_PubPoly (d_Promise dl))
      | Err _ => None
      end
  end.

(** The accepted dealers that reveal successfully, in the order they were
    added, each with its share and its polynomial. *)
Definition good_dealers (h : store) (r : Receiver) : list (Secret * PubPoly) :=
  omap (revealed h r) (r_Dealers r).

(** Running sums, as the loop builds them. *)
Definition add_shares (share : Secret) (l : list (Secret * PubPoly)) : Secret :=
  foldl Secret_Add share l.*1.

Definition add_polys (p : list Point) (l : list (Secret * PubPoly)) : list Point :=
  foldl (zip_with Point_Add) p (pp_p <$> l.*2).

(** The dealer at [d] lets the loop go on: it is allocated, it reveals its
    share, and its polynomial has as many coefficients as the aggregate. *)
Definition proceeds (h : store) (r : Receiver) (d : loc) : Prop :=
  ∃ s p, revealed h r d = Some (s, p)
         ∧ length (pp_p p) = Z.to_nat (info_T (r_info r)).

(** [r] with another list of dealers. *)
Definition with_Dealers (r : Receiver) (ds : list loc) : Receiver :=
  {| r_info := r_info r; r_index := r_index r; r_Key := r_Key r;
     r_Dealers := ds; r_Secret := r_Secret r |}.

(** The scan as the specification words it in one place: a dealer whose
    [RevealShare] fails is skipped, takes one position, and the scan goes
    on with the next dealers.  For comparison with the loop of the source. *)
Fixpoint ProduceSharedSecret_loop_skipping (h : store) (r : Receiver)
    (dealers : list loc) (index : Z) (share : Secret) (pub : PubPoly)
    (goodShare : Z) : outcome (res (Secret * PubPoly * Z)) :=
  match dealers with
  | [] => Return (Ok (share, pub, goodShare))
  | d :: rest =>
      if decide (goodShare >= info_T (r_info r)) then
        Return (Ok (share, pub, goodShare))
      else
        match h !! d with
        | None => Panicked
        | Some dl =>
            match State_RevealShare (d_State dl) (r_index r) (r_Key r) with
            | Err e =>
                ProduceSharedSecret_loop_skipping h r rest (index + 1)
                  share pub goodShare
            | Ok s =>
                match PubPoly_Add pub (Promise_PubPoly (d_Promise dl)) with
                | None => Panicked
                | Some pub' =>
                    ProduceSharedSecret_loop_skipping h r rest (index + 1)
                      (Secret_Add share s) pub' (goodShare + 1)
                end
            end
        end
  end.

Definition Receiver_ProduceSharedSecret_skipping (h : store) (r : Receiver)
  : outcome (res SharedSecret) :=
  if decide (length (r_Dealers r) < 1)%nat then Return (Err ErrNoDealers)
  else
    let pub := PubPoly_InitNull (info_T (r_info r)) Point_Base in
    let share := Secret_Zero in
    match ProduceSharedSecret_loop_skipping h r (r_Dealers r) 0 share pub 0 with
    | Panicked => Panicked
    | Return (Err e) => Return (Err e)
    | Return (Ok (share, pub, goodShare)) =>
        if decide (goodShare < info_T (r_info r)) then
          Return (Err ErrNotEnoughShares)
        else if negb (PubPoly_Check pub (r_index r) share) then
          Return (Err ErrCheck)
        else
          Return (Ok {| ss_Pub := pub; ss_Share := share; ss_Index := r_index r |})
    end.

(** A sequence of [AddDealer] calls on one receiver; each call comes with
    the store as it is when the call is made. *)
Fixpoint Receiver_AddDealers (r : Receiver) (calls : list (store * Z * loc))
  : outcome (Receiver * list (option Response * option error)) :=
  match calls with
  | [] => Return (r, [])
  | (h, index, d) :: rest =>
      match Receiver_AddDealer h r index d with
      | Panicked => Panicked
      | Return (r', out) =>
          match Receiver_AddDealers r' rest with
          | Panicked => Panicked
          | Return (r'', outs) => Return (r'', out :: outs)
          end
      end
  end.

(** One operation of the package, seen from the store of dealers:
    [Dealer.AddResponse] may change it, the other operations only read it. *)
Inductive step (h : store) : store → Prop :=
| step_AddResponse d i response h' e :
    Dealer_AddResponse h d i response = Return (h', e) → step h h'
| step_Certified d e :
    Dealer_Certified h d = Return e → step h h
| step_AddDealer r index d out :
    Receiver_AddDealer h r index d = Return out → step h h
| step_ProduceSharedSecret r out :
    Receiver_ProduceSharedSecret h r = Return out → step h h.

(** The index a receiver holds after a sequence of [AddDealer] calls that
    start at index [index] and ask for [indices]: the sentinel -1 gives way
    to the first index asked for that is not -1, any other index stays. *)
Definition bound_after (index : Z) (indices : list Z) : Z :=
  if decide (index = -1) then default (-1) (head (filter (λ j, j ≠ -1) indices))
  else index.

(** The aggregate the loop of [ProduceSharedSecret] builds from the shares
    and polynomials [sel], for the threshold [t]. *)
Definition aggregate_share (sel : list (Secret * PubPoly)) : Secret :=
  add_shares Secret_Zero sel.

Definition aggregate_pub (t : Z) (sel : list (Secret * PubPoly)) : PubPoly :=
  {| pp_b := Point_Base;
     pp_p := add_polys (replicate (Z.to_nat t) Point_Null) sel |}.

End Joint.

(** ** A small instance: the integers modulo 11

    The additive group of the integers modulo 11, with generator 1: a
    scalar and a point are both a residue, and the commitment to a scalar
    is the scalar itself.  It has no security whatsoever and serves to run
    the definitions on concrete dealers and receivers. *)
Module Z11.

Definition q : Z := 11.

#[global] Instance suite : Suite := {|
  Secret := Z;
  Point := Z;
  Point_Equal := Z.eq_dec;
  Secret_Zero := 0;
  Secret_SetInt64 := λ x, x mod q;
  Secret_Add := λ a b, (a + b) mod q;
  Point_Null := 0;
  Point_Base := 1;
  Point_Add := λ a b, (a + b) mod q;
  Point_Mul := λ p s, (p * s) mod q;
|}.

(** The key pair of private key [x]. *)
Definition key (x : Z) : KeyPair := {| kp_Public := x mod q; kp_Secret := x mod q |}.

(** The public polynomial of coefficients [cs], on the base point 1. *)
Definition poly (cs : list Z) : PubPoly := {| pp_b := 1; pp_p := cs |}.

(** The polynomial of a dealer: its constant term is the secret, the
    further coefficients are stepped by the private key of the promiser. *)
Definition coefficients (secret promiser : KeyPair) (t : Z) : list Z :=
  (λ k, (kp_Secret secret + k * kp_Secret promiser) mod q) <$> seqZ 0 t.

Definition eval (cs : list Z) (x : Z) : Z :=
  foldr (λ c acc, (acc * x + c) mod q) 0 cs.

(** A share is blinded by the public key of its receiver, a response is
    the index and the public key of the receiver that answers. *)
#[global] Instance scheme : PromiseScheme := {|
  Response := Z * Z;
  ConstructPromise := λ secret promiser t r receivers,
    let cs := coefficients secret promiser t in
    {| p_t := t; p_r := r;
       p_pubPoly := poly cs;
       p_secrets := imap (λ i pk, (eval cs (Z.of_nat i) + pk) mod q) receivers |};
  share_recover := λ k c, (c - kp_Secret k) mod q;
  Response_make := λ _ index k, (index, kp_Public k);
  Response_verify := λ _ i resp, bool_decide (resp.1 = i);
|}.

Definition info : PolyInfo := {| info_T := 2; info_R := 3; info_N := 3 |}.

(** Three peers, of private keys 1, 2 and 3. *)
Definition receiverList : list Z := [1; 2; 3].

(** The three dealers, as built by [NewDealer]. *)
Definition dealer0 : Dealer := NewDealer info (key 5) (key 1) receiverList.
Definition dealer1 : Dealer := NewDealer info (key 7) (key 2) receiverList.
Definition dealer2 : Dealer := NewDealer info (key 4) (key 3) receiverList.

(** The store at the start: the three dealers, with no response yet. *)
Definition store0 : gmap loc Dealer :=
  {[ 1%positive := dealer0; 2%positive := dealer1; 3%positive := dealer2 ]}.

(** A receiver accepts a dealer and hands the response back to it, as the
    tests of the package do. *)
Definition exchange (hr : gmap loc Dealer * Receiver) (index : Z) (d : loc)
  : outcome (gmap loc Dealer * Receiver) :=
  match Receiver_AddDealer hr.1 hr.2 index d with
  | Panicked => Panicked
  | Return (r', (Some response, _)) =>
      match Dealer_AddResponse hr.1 d index response with
      | Panicked => Panicked
      | Return (h', _) => Return (h', r')
      end
  | Return (r', (None, _)) => Return (hr.1, r')
  end.

Fixpoint exchanges (hr : gmap loc Dealer * Receiver) (index : Z) (ds : list loc)
  : outcome (gmap loc Dealer * Receiver) :=
  match ds with
  | [] => Return hr
  | d :: rest =>
      match exchange hr index d with
      | Panicked => Panicked
      | Return hr' => exchanges hr' index rest
      end
  end.

(** The largest capacity of a slice of pointers on a 64-bit platform
    whose allocations are bounded by 2^48 bytes. *)
Definition maxCap : Z := 2 ^ 45.

(** The receiver of private key [x], fresh. *)
Definition fresh (x : Z) : Receiver :=
  match NewReceiver maxCap info (key x) with
  | Return r => r
  | Panicked => {| r_info := info; r_index := -1; r_Key := key x;
                   r_Dealers := []; r_Secret := None |}
  end.

(** The scenario of the tests: every receiver accepts the three dealers,
    in the order 1, 2, 3, and every response goes back to its dealer. *)
Definition setup : outcome (gmap loc Dealer * (Receiver * Receiver * Receiver)) :=
  match exchanges (store0, fresh 1) 0 [1; 2; 3]%positive with
  | Panicked => Panicked
  | Return (h1, r0) =>
      match exchanges (h1, fresh 2) 1 [1; 2; 3]%positive with
      | Panicked => Panicked
      | Return (h2, r1) =>
          match exchanges (h2, fresh 3) 2 [1; 2; 3]%positive with
          | Panicked => Panicked
          | Return (h3, r2) => Return (h3, (r0, r1, r2))
          end
      end
  end.

(** The store once every dealer is certified, and the three receivers. *)
Definition certified : gmap loc Dealer :=
  match setup with Return (h, _) => h | Panicked => store0 end.

Definition receiver0 : Receiver :=
  match setup with Return (_, (r, _, _)) => r | Panicked => fresh 1 end.

Definition receiver1 : Receiver :=
  match setup with Return (_, (_, r, _)) => r | Panicked => fresh 2 end.

(** The peer of private key 2 again, at index 1, that accepts the same
    three dealers in the order 3, 2, 1. *)
Definition receiver1_reversed : Receiver :=
  match Receiver_AddDealers (fresh 2)
          [(certified, 1, 3%positive); (certified, 1, 2%positive);
           (certified, 1, 1%positive)] with
  | Return (r, _) => r
  | Panicked => fresh 2
  end.

(** A receiver at index 0 that accepted dealer 1 before any response went
    back to it, then dealer 2: in [store0] no dealer is certified. *)
Definition receiver_early : Receiver :=
  match Receiver_AddDealers (fresh 1)
          [(store0, 0, 1%positive); (store0, 0, 2%positive)] with
  | Return (r, _) => r
  | Panicked => fresh 1
  end.

(** A store where the dealer at 2 is not certified and the two others
    are. *)
Definition mixed : gmap loc Dealer := <[2%positive := dealer1]> certified.

(** The store when only the receivers at 0 and 1 have answered: every
    dealer has two responses and needs three. *)
Definition almost : gmap loc Dealer :=
  match exchanges (store0, fresh 1) 0 [1; 2; 3]%positive with
  | Return (h1, _) =>
      match exchanges (h1, fresh 2) 1 [1; 2; 3]%positive with
      | Return (h2, _) => h2
      | Panicked => store0
      end
  | Panicked => store0
  end.

(** The peer of private key 2 that takes the index 0, which is not its
    own, and accepts the dealers at 1 and 2 once they are certified. *)
Definition receiver_wrong_key : Receiver :=
  match Receiver_AddDealers (fresh 2)
          [(certified, 0, 1%positive); (certified, 0, 2%positive)] with
  | Return (r, _) => r
  | Panicked => fresh 2
  end.

(** The dealer a store holds at [d] ([dealer0] if there is none). *)
Definition at_loc (h : gmap loc Dealer) (d : loc) : Dealer :=
  default dealer0 (h !! d).

(** The store after the dealer at [d] took the answer of the receiver at
    index 2. *)
Definition answered (h : gmap loc Dealer) (d : loc) : gmap loc Dealer :=
  match Dealer_AddResponse h d 2 (2, 3) with
  | Return (h', _) => h'
  | Panicked => h
  end.

(** The shared secret of the receiver at 0, and of the receiver at 1, when
    the dealers were accepted in the order 1, 2, 3. *)
Definition secret0 : SharedSecret :=
  {| ss_Pub := poly [1; 4]; ss_Share := 1; ss_Index := 0 |}.

Definition secret1 : SharedSecret :=
  {| ss_Pub := poly [1; 4]; ss_Share := 5; ss_Index := 1 |}.

(** The shared secret of the receiver at 1 when it accepted the dealers
    in the order 3, 2, 1. *)
Definition secret1_reversed : SharedSecret :=
  {| ss_Pub := poly [0; 5]; ss_Share := 5; ss_Index := 1 |}.


(** The peer of private key 1, at index 0, that accepts the dealer at 1
    only, once it is certified. *)
Definition receiver_single : Receiver :=
  match Receiver_AddDealers (fresh 1) [(certified, 0, 1%positive)] with
  | Return (r, _) => r
  | Panicked => fresh 1
  end.

(** [certified] without the dealer at 3. *)
Definition without3 : gmap loc Dealer := delete 3%positive certified.

(** The receiver at 0 with the threshold 0. *)
Definition receiver_T0 : Receiver :=
  {| r_info := {| info_T := 0; info_R := 3; info_N := 3 |}; r_index := 0;
     r_Key := key 1; r_Dealers := [1%positive]; r_Secret := None |}.

End Z11.

(** * Properties *)

Section Properties.
Context `{suite : Suite} `{scheme : !PromiseScheme}.
Implicit Types (h : gmap loc Dealer) (r : Receiver) (d : loc) (ds : list loc).

(** ** The loop of [ProduceSharedSecret] *)

Lemma PubPoly_Add_Some (a b c : PubPoly) :
  PubPoly_Add a b = Some c →
  length (pp_p b) = length (pp_p a)
  ∧ pp_b c = pp_b a
  ∧ pp_p c = zip_with Point_Add (pp_p a) (pp_p b)
  ∧ length (pp_p c) = length (pp_p a).
Proof.
  unfold PubPoly_Add. case_decide as Hlen; [|done].
  intros [= <-]; simpl. rewrite length_zip_with. split_and!; [done..|lia].
Qed.

Lemma PubPoly_Add_same_length (a b : PubPoly) :
  length (pp_p b) = length (pp_p a) → is_Some (PubPoly_Add a b).
Proof. intros Hlen. unfold PubPoly_Add. rewrite decide_True; eauto. Qed.

Lemma revealed_Some h r d s p :
  revealed h r d = Some (s, p) ↔
  ∃ dl, h !! d = Some dl
        ∧ State_RevealShare (d_State dl) (r_index r) (r_Key r) = Ok s
        ∧ Promise_PubPoly (d_Promise dl) = p.
Proof.
  unfold revealed. split.
  - destruct (h !! d) as [dl|]; [|done].
    destruct (State_RevealShare _ _ _) as [s'|e] eqn:Hrev; [|done].
    intros [= <- <-]. eauto.
  - intros (dl & -> & -> & <-). done.
Qed.

(** The loop fails only with the error of a dealer that does not reveal. *)
Lemma loop_Err h r ds index share pub g e :
  ProduceSharedSecret_loop h r ds index share pub g = Return (Err e) →
  ∃ k cause, e = ErrReveal (r_index r) k cause.
Proof.
  revert index share pub g.
  induction ds as [|d ds IH]; intros index share pub g; simpl; [done|].
  case_decide; [done|].
  destruct (h !! d) as [dl|]; [|done].
  destruct (State_RevealShare _ _ _) as [s|e'].
  - destruct (PubPoly_Add _ _) as [pub'|]; [|done]. apply IH.
  - intros [= <-]. eauto.
Qed.

(** An error of the loop names a dealer that the loop got to and that did
    not reveal. *)
Lemma loop_Err_inv h r ds index share pub g e :
  ProduceSharedSecret_loop h r ds index share pub g = Return (Err e) →
  ∃ k d dl cause,
    e = ErrReveal (r_index r) (index + Z.of_nat k) cause
    ∧ ds !! k = Some d
    ∧ h !! d = Some dl
    ∧ State_RevealShare (d_State dl) (r_index r) (r_Key r) = Err cause
    ∧ g + Z.of_nat k < info_T (r_info r)
    ∧ Forall (λ d', is_Some (revealed h r d')) (take k ds).
Proof.
  revert index share pub g.
  induction ds as [|d ds IH]; intros index share pub g; simpl; [done|].
  case_decide as Hg; [done|].
  destruct (h !! d) as [dl|] eqn:Hd; [|done].
  destruct (State_RevealShare _ _ _) as [s|e'] eqn:Hrev.
  - destruct (PubPoly_Add _ _) as [pub'|]; [|done].
    intros Hloop. apply IH in Hloop as (k & d' & dl' & cause & -> & Hk & Hd' & Hc & HT & Hall).
    exists (S k), d', dl', cause. split_and!; [f_equal; lia|done..|lia|].
    simpl. constructor; [|done].
    exists (s, Promise_PubPoly (d_Promise dl)). apply revealed_Some. eauto.
  - intros [= <-]. exists 0%nat, d, dl, e'.
    split_and!; [f_equal; lia|done..|lia|constructor].
Qed.

(** When the loop ends normally it has visited the first [T - goodShare]
    dealers (all of them, if there are fewer), every one of them revealed
    its share, and the variables hold the running sums over them. *)
Lemma loop_Ok h r ds index share pub g share' pub' g' :
  ProduceSharedSecret_loop h r ds index share pub g
    = Return (Ok (share', pub', g')) →
  ∃ sel,
    mapM (revealed h r) (take (Z.to_nat (info_T (r_info r) - g)) ds) = Some sel
    ∧ share' = add_shares share sel
    ∧ pp_p pub' = add_polys (pp_p pub) sel
    ∧ pp_b pub' = pp_b pub
    ∧ g' = g + Z.of_nat (length sel)
    ∧ Forall (λ sp, length (pp_p sp.2) = length (pp_p pub)) sel.
Proof.
  revert index share pub g.
  induction ds as [|d ds IH]; intros index share pub g; simpl.
  - intros [= <- <- <-]. exists []. rewrite take_nil. simpl.
    split_and!; [done..|lia|done].
  - case_decide as Hg.
    + intros [= <- <- <-]. exists [].
      replace (Z.to_nat (info_T (r_info r) - g)) with 0%nat by lia.
      simpl. split_and!; [done..|lia|done].
    + destruct (h !! d) as [dl|] eqn:Hd; [|done].
      destruct (State_RevealShare _ _ _) as [s|e] eqn:Hrev; [|done].
      destruct (PubPoly_Add _ _) as [pub1|] eqn:Hadd; [|done].
      intros Hloop. apply IH in Hloop as (sel & Hsel & -> & Hp & Hb & -> & Hlen).
      apply PubPoly_Add_Some in Hadd as (Hl1 & Hb1 & Hp1 & Hl2).
      exists ((s, Promise_PubPoly (d_Promise dl)) :: sel).
      replace (Z.to_nat (info_T (r_info r) - g))
        with (S (Z.to_nat (info_T (r_info r) - (g + 1)))) by lia.
      simpl. replace (revealed h r d) with (Some (s, Promise_PubPoly (d_Promise dl)))
        by (symmetry; apply revealed_Some; eauto).
      simpl. rewrite Hsel. simpl.
      split_and!; [done|done| |congruence|lia|].
      * rewrite Hp, Hp1. done.
      * constructor; [done|]. eapply Forall_impl; [exact Hlen|].
        intros sp Hsp. simpl in *. congruence.
Qed.

(** Once [T] good shares are there, further dealers are not looked at. *)
Lemma loop_stops h r ds more index share pub g share' pub' g' :
  ProduceSharedSecret_loop h r ds index share pub g
    = Return (Ok (share', pub', g')) →
  info_T (r_info r) ≤ g' →
  ProduceSharedSecret_loop h r (ds ++ more) index share pub g
    = Return (Ok (share', pub', g')).
Proof.
  revert index share pub g.
  induction ds as [|d ds IH]; intros index share pub g; simpl.
  - intros [= <- <- <-] HT. destruct more as [|d more]; simpl; [done|].
    rewrite decide_True by lia. done.
  - case_decide; [done|].
    destruct (h !! d) as [dl|]; [|done].
    destruct (State_RevealShare _ _ _) as [s|e]; [|done].
    destruct (PubPoly_Add _ _) as [pub1|]; [|done]. apply IH.
Qed.

(** The loop reads the receiver's threshold, index and key only. *)
Lemma loop_with_Dealers h r ds' ds index share pub g :
  ProduceSharedSecret_loop h (with_Dealers r ds') ds index share pub g
  = ProduceSharedSecret_loop h r ds index share pub g.
Proof.
  revert index share pub g.
  induction ds as [|d ds IH]; intros index share pub g; simpl; [done|].
  case_decide; [done|].
  destruct (h !! d) as [dl|]; [|done].
  destruct (State_RevealShare _ _ _) as [s|e]; [|done].
  destruct (PubPoly_Add _ _) as [pub1|]; [|done]. apply IH.
Qed.

Lemma mapM_take_omap {A B} (f : A → option B) (n : nat) (l : list A) (sel : list B) :
  mapM f (take n l) = Some sel →
  take (length sel) (omap f l) = sel ∧ length sel = (n `min` length l)%nat.
Proof.
  intros Hsel. apply mapM_Some in Hsel.
  assert (omap f (take n l) = sel) as Homap.
  { induction Hsel as [|x y xs ys Hxy _ IH]; simpl; [done|].
    rewrite Hxy. simpl. by f_equal. }
  split.
  - rewrite <-(take_drop n l) at 1. rewrite omap_app, Homap.
    by rewrite take_app_length.
  - apply Forall2_length in Hsel. rewrite length_take in Hsel. lia.
Qed.

(** What a successful call went through. *)
Lemma ProduceSharedSecret_Ok h r ss :
  Receiver_ProduceSharedSecret h r = Return (Ok ss) →
  ∃ share pub g,
    r_Dealers r ≠ []
    ∧ ProduceSharedSecret_loop h r (r_Dealers r) 0 Secret_Zero
        (PubPoly_InitNull (info_T (r_info r)) Point_Base) 0
      = Return (Ok (share, pub, g))
    ∧ info_T (r_info r) ≤ g
    ∧ PubPoly_Check pub (r_index r) share = true
    ∧ ss = {| ss_Pub := pub; ss_Share := share; ss_Index := r_index r |}.
Proof.
  unfold Receiver_ProduceSharedSecret.
  case_decide as Hlen; [done|].
  destruct (ProduceSharedSecret_loop _ _ _ _ _ _ _) as [[[[share pub] g]|e]|];
    [|done..].
  case_decide as HT; [done|].
  destruct (PubPoly_Check pub (r_index r) share) eqn:Hcheck; simpl; [|done].
  intros [= <-]. exists share, pub, g. split_and!; [|done|lia|done..].
  intros Hnil. rewrite Hnil in Hlen. simpl in Hlen. lia.
Qed.

(** A normal end of the loop decides the call. *)
Lemma ProduceSharedSecret_of_loop h r share pub g :
  r_Dealers r ≠ [] →
  ProduceSharedSecret_loop h r (r_Dealers r) 0 Secret_Zero
    (PubPoly_InitNull (info_T (r_info r)) Point_Base) 0
    = Return (Ok (share, pub, g)) →
  Receiver_ProduceSharedSecret h r =
    if decide (g < info_T (r_info r)) then Return (Err ErrNotEnoughShares)
    else if PubPoly_Check pub (r_index r) share
         then Return (Ok {| ss_Pub := pub; ss_Share := share;
                            ss_Index := r_index r |})
         else Return (Err ErrCheck).
Proof.
  intros Hne Hloop. unfold Receiver_ProduceSharedSecret.
  rewrite decide_False; last first.
  { destruct (r_Dealers r); [done|]. simpl. lia. }
  rewrite Hloop. case_decide; [done|].
  by destruct (PubPoly_Check _ _ _).
Qed.

(** ** The shared secret verifies *)

(** C1. Every [SharedSecret] that [Receiver.ProduceSharedSecret] returns
    satisfies [Pub.Check(Index, Share)] and carries the index of the
    receiver; and whenever the scan has gathered its [T] shares but the
    aggregate share does not check against the aggregate polynomial, the
    call fails with the consistency error and returns no [SharedSecret]. *)
Theorem ProduceSharedSecret_checked h r :
  (∀ ss, Receiver_ProduceSharedSecret h r = Return (Ok ss) →
         PubPoly_Check (ss_Pub ss) (ss_Index ss) (ss_Share ss) = true
         ∧ ss_Index ss = r_index r)
  ∧ (∀ share pub g,
       r_Dealers r ≠ [] →
       ProduceSharedSecret_loop h r (r_Dealers r) 0 Secret_Zero
         (PubPoly_InitNull (info_T (r_info r)) Point_Base) 0
         = Return (Ok (share, pub, g)) →
       info_T (r_info r) ≤ g →
       PubPoly_Check pub (r_index r) share = false →
       Receiver_ProduceSharedSecret h r = Return (Err ErrCheck)).
Proof.
  split.
  - intros ss Hok.
    apply ProduceSharedSecret_Ok in Hok as (share & pub & g & _ & _ & _ & Hc & ->).
    done.
  - intros share pub g Hne Hloop HT Hcheck.
    rewrite (ProduceSharedSecret_of_loop _ _ _ _ _ Hne Hloop).
    rewrite decide_False by lia. by rewrite Hcheck.
Qed.

(** ** The greedy choice of the first [T] dealers *)

(** C3. On success the scan has gone through the accepted dealers in the
    order they were added and stopped after [T] good shares: the dealers
    that contribute are the first [T] that reveal successfully, which are
    the first [T] of the list; the share returned is the sum of their
    shares, the polynomial returned the coefficient-wise sum of their
    polynomials from the null polynomial of [InitNull]; and dealers added
    after them change nothing. *)
Theorem ProduceSharedSecret_first_T h r ss :
  Receiver_ProduceSharedSecret h r = Return (Ok ss) →
  let n := Z.to_nat (info_T (r_info r)) in
  let sel := take n (good_dealers h r) in
  length sel = n
  ∧ mapM (revealed h r) (take n (r_Dealers r)) = Some sel
  ∧ ss_Share ss = add_shares Secret_Zero sel
  ∧ Forall (λ sp, length (pp_p sp.2) = n) sel
  ∧ pp_p (ss_Pub ss) = add_polys (replicate n Point_Null) sel
  ∧ pp_b (ss_Pub ss) = Point_Base
  ∧ (∀ more, Receiver_ProduceSharedSecret h (with_Dealers r (r_Dealers r ++ more))
             = Return (Ok ss)).
Proof.
  intros Hok n sel.
  apply ProduceSharedSecret_Ok in Hok as (share & pub & g & Hne & Hloop & HT & Hc & ->).
  pose proof Hloop as Hinv.
  apply loop_Ok in Hinv as (sel' & Hsel & -> & Hp & Hb & -> & Hlen).
  rewrite Z.sub_0_r in Hsel. fold n in Hsel.
  pose proof (mapM_take_omap _ _ _ _ Hsel) as [Htake Hmin].
  assert (length sel' = n) as Hn by (subst n; lia).
  assert (sel = sel') as ->.
  { subst sel. unfold good_dealers. by rewrite <-Hn. }
  simpl. split_and!; [done..| | |done|].
  - eapply Forall_impl; [exact Hlen|]. intros sp Hsp. simpl in *.
    rewrite Hsp. apply length_replicate.
  - done.
  - intros more.
    assert (r_Dealers r ++ more ≠ []) as Hne' by (by destruct (r_Dealers r)).
    rewrite (ProduceSharedSecret_of_loop h (with_Dealers r (r_Dealers r ++ more))
               (add_shares Secret_Zero sel') pub (0 + Z.of_nat (length sel'))).
    + simpl. rewrite decide_False by lia. by rewrite Hc.
    + done.
    + rewrite loop_with_Dealers. simpl. by apply loop_stops.
Qed.

(** ** A dealer that does not reveal *)

(** Dealers that let the loop go on are gone through one after the other. *)
Lemma loop_proceeds h r pre rest index share pub g :
  Forall (proceeds h r) pre →
  g + Z.of_nat (length pre) ≤ info_T (r_info r) →
  length (pp_p pub) = Z.to_nat (info_T (r_info r)) →
  ∃ share' pub',
    ProduceSharedSecret_loop h r (pre ++ rest) index share pub g
    = ProduceSharedSecret_loop h r rest (index + Z.of_nat (length pre))
        share' pub' (g + Z.of_nat (length pre))
    ∧ length (pp_p pub') = Z.to_nat (info_T (r_info r)).
Proof.
  intros Hpre. revert index share pub g.
  induction Hpre as [|d pre Hd _ IH]; intros index share pub g HT Hlen.
  - exists share, pub. simpl. by rewrite !Z.add_0_r.
  - destruct Hd as (s & p & Hrev & Hp).
    apply revealed_Some in Hrev as (dl & Hdl & Hreveal & <-).
    destruct (PubPoly_Add_same_length pub (Promise_PubPoly (d_Promise dl)))
      as [pub1 Hadd]; [congruence|].
    pose proof (PubPoly_Add_Some _ _ _ Hadd) as (_ & _ & _ & Hlen1).
    simpl in HT.
    destruct (IH (index + 1) (Secret_Add share s) pub1 (g + 1))
      as (share' & pub' & Hloop & Hlen'); [lia|congruence|].
    exists share', pub'. split; [|done].
    simpl. rewrite decide_False by lia. rewrite Hdl, Hreveal, Hadd, Hloop.
    f_equal; lia.
Qed.

Lemma proceeds_revealed h r pre :
  Forall (proceeds h r) pre → length (omap (revealed h r) pre) = length pre.
Proof.
  induction 1 as [|d pre (s & p & Hrev & _) _ IH]; simpl; [done|].
  rewrite Hrev. simpl. by f_equal.
Qed.

(** The call stops at the first dealer that does not reveal, if the scan
    gets to it. *)
Lemma ProduceSharedSecret_stops_at h r pre d post dl e :
  r_Dealers r = pre ++ d :: post →
  Forall (proceeds h r) pre →
  Z.of_nat (length pre) < info_T (r_info r) →
  h !! d = Some dl →
  State_RevealShare (d_State dl) (r_index r) (r_Key r) = Err e →
  Receiver_ProduceSharedSecret h r
  = Return (Err (ErrReveal (r_index r) (Z.of_nat (length pre)) e)).
Proof.
  intros Hds Hpre HT Hdl Hreveal. unfold Receiver_ProduceSharedSecret.
  rewrite Hds. rewrite decide_False; last first.
  { rewrite length_app. simpl. lia. }
  destruct (loop_proceeds h r pre (d :: post) 0 Secret_Zero
              (PubPoly_InitNull (info_T (r_info r)) Point_Base) 0)
    as (share' & pub' & -> & _); [done|lia|apply length_replicate|].
  simpl. rewrite decide_False by lia. by rewrite Hdl, Hreveal.
Qed.

(** C6. When [RevealShare] fails for a dealer that the scan gets to
    (fewer than [T] dealers stand before it and each of them let the loop
    go on), [ProduceSharedSecret] returns at once, with no [SharedSecret]
    and an error that carries the index of the receiver, the position of
    the dealer and the error of [RevealShare]; the position named is the
    one the failing dealer has in the list of accepted dealers. *)
Theorem ProduceSharedSecret_reveal_error h r pre d post dl e :
  r_Dealers r = pre ++ d :: post →
  Forall (proceeds h r) pre →
  Z.of_nat (length pre) < info_T (r_info r) →
  h !! d = Some dl →
  State_RevealShare (d_State dl) (r_index r) (r_Key r) = Err e →
  ∃ position,
    Receiver_ProduceSharedSecret h r
    = Return (Err (ErrReveal (r_index r) position e))
    ∧ position = Z.of_nat (length pre)
    ∧ r_Dealers r !! Z.to_nat position = Some d.
Proof.
  intros Hds Hpre HT Hdl Hreveal. exists (Z.of_nat (length pre)).
  split_and!; [|done|].
  - by apply (ProduceSharedSecret_stops_at h r pre d post dl e).
  - rewrite Hds, Nat2Z.id. by apply list_lookup_middle.
Qed.

(** C5, as the code has it. A dealer whose [RevealShare] fails when the
    scan gets to it is not skipped: the call returns at once, with the
    reveal error of that position and the cause that [RevealShare] gave;
    it returns no [SharedSecret], so that neither the share nor the
    polynomial of any dealer is handed out; and the dealers after it are
    not considered: whatever they are, the result is the same. *)
Theorem ProduceSharedSecret_does_not_skip h r pre d post dl e :
  r_Dealers r = pre ++ d :: post →
  Forall (proceeds h r) pre →
  Z.of_nat (length pre) < info_T (r_info r) →
  h !! d = Some dl →
  State_RevealShare (d_State dl) (r_index r) (r_Key r) = Err e →
  Receiver_ProduceSharedSecret h r
    = Return (Err (ErrReveal (r_index r) (Z.of_nat (length pre)) e))
  ∧ (∀ ss, Receiver_ProduceSharedSecret h r ≠ Return (Ok ss))
  ∧ (∀ post', Receiver_ProduceSharedSecret h (with_Dealers r (pre ++ d :: post'))
              = Receiver_ProduceSharedSecret h r)
  ∧ (∀ post', Receiver_ProduceSharedSecret h (with_Dealers r (pre ++ d :: post'))
              = Return (Err (ErrReveal (r_index r) (Z.of_nat (length pre)) e))).
Proof.
  intros Hds Hpre HT Hdl Hreveal.
  assert (∀ post',
            Receiver_ProduceSharedSecret h (with_Dealers r (pre ++ d :: post'))
            = Return (Err (ErrReveal (r_index r) (Z.of_nat (length pre)) e)))
    as Hany.
  { intros post'.
    apply (ProduceSharedSecret_stops_at h (with_Dealers r (pre ++ d :: post'))
             pre d post' dl e); done. }
  rewrite (ProduceSharedSecret_stops_at h r pre d post dl e) by done.
  split_and!; [done|done| |done].
  intros post'. by rewrite Hany.
Qed.

(** ** Too few good shares *)

Lemma ProduceSharedSecret_NotEnough h r :
  Receiver_ProduceSharedSecret h r = Return (Err ErrNotEnoughShares) →
  r_Dealers r ≠ []
  ∧ Forall (λ d, is_Some (revealed h r d)) (r_Dealers r)
  ∧ Z.of_nat (length (r_Dealers r)) < info_T (r_info r).
Proof.
  unfold Receiver_ProduceSharedSecret. case_decide as Hlen; [done|].
  destruct (ProduceSharedSecret_loop _ _ _ _ _ _ _)
    as [[[[share pub] g]|e]|] eqn:Hloop; [| |done].
  - case_decide as HT; [|by destruct (PubPoly_Check _ _ _)].
    intros _. apply loop_Ok in Hloop as (sel & Hsel & _ & _ & _ & -> & _).
    rewrite Z.sub_0_r in Hsel.
    pose proof (mapM_take_omap _ _ _ _ Hsel) as [_ Hmin].
    assert (length (r_Dealers r) < Z.to_nat (info_T (r_info r)))%nat as Hshort by lia.
    rewrite take_ge in Hsel by lia.
    split_and!; [|  |lia].
    + intros Hnil. rewrite Hnil in Hlen. simpl in Hlen. lia.
    + apply mapM_Some in Hsel. clear -Hsel.
      induction Hsel; constructor; eauto.
  - intros [= ->]. by apply loop_Err in Hloop as (k & cause & [=]).
Qed.

(** C7, as the code has it. When fewer than [T] of the accepted dealers
    yield a good [RevealShare], [ProduceSharedSecret] returns no
    [SharedSecret] (it returns one only if [T] good shares were obtained).
    If the call returns at all (it panics when the scan gets to a nil
    dealer, or to a dealer whose polynomial has not [T] coefficients), it
    fails with the no-dealer error when no dealer was accepted, with the
    error of too few shares when a dealer was accepted and every accepted
    dealer reveals (and only then), and with the reveal error of the first
    accepted dealer that does not reveal otherwise.  It does return, with
    these errors, when the dealers the scan goes through are allocated,
    reveal and have polynomials of [T] coefficients. *)
Theorem ProduceSharedSecret_insufficient h r :
  Z.of_nat (length (good_dealers h r)) < info_T (r_info r) →
  (∀ ss, Receiver_ProduceSharedSecret h r ≠ Return (Ok ss))
  ∧ (r_Dealers r = [] →
     Receiver_ProduceSharedSecret h r = Return (Err ErrNoDealers))
  ∧ (r_Dealers r ≠ [] → Forall (proceeds h r) (r_Dealers r) →
     Receiver_ProduceSharedSecret h r = Return (Err ErrNotEnoughShares))
  ∧ (Receiver_ProduceSharedSecret h r = Return (Err ErrNotEnoughShares) →
     r_Dealers r ≠ [] ∧ Forall (λ d, is_Some (revealed h r d)) (r_Dealers r))
  ∧ (∀ pre d post dl e,
       r_Dealers r = pre ++ d :: post →
       Forall (proceeds h r) pre →
       h !! d = Some dl →
       State_RevealShare (d_State dl) (r_index r) (r_Key r) = Err e →
       Receiver_ProduceSharedSecret h r
       = Return (Err (ErrReveal (r_index r) (Z.of_nat (length pre)) e)))
  ∧ (∀ out, Receiver_ProduceSharedSecret h r = Return out →
       (r_Dealers r = [] ∧ out = Err ErrNoDealers)
       ∨ (r_Dealers r ≠ []
          ∧ Forall (λ d, is_Some (revealed h r d)) (r_Dealers r)
          ∧ out = Err ErrNotEnoughShares)
       ∨ (∃ k d dl cause,
            r_Dealers r !! k = Some d
            ∧ h !! d = Some dl
            ∧ State_RevealShare (d_State dl) (r_index r) (r_Key r) = Err cause
            ∧ Forall (λ d', is_Some (revealed h r d')) (take k (r_Dealers r))
            ∧ out = Err (ErrReveal (r_index r) (Z.of_nat k) cause))).
Proof.
  intros Hfew. split_and!.
  - intros ss Hok.
    apply ProduceSharedSecret_Ok in Hok as (share & pub & g & _ & Hloop & HT & _).
    apply loop_Ok in Hloop as (sel & Hsel & _ & _ & _ & -> & _).
    apply mapM_take_omap in Hsel as [Htake _].
    apply (f_equal length) in Htake. rewrite length_take in Htake.
    unfold good_dealers in Hfew. lia.
  - intros Hnil. unfold Receiver_ProduceSharedSecret. rewrite Hnil. done.
  - intros Hne Hall.
    pose proof (proceeds_revealed _ _ _ Hall) as Hlen.
    unfold good_dealers in Hfew. rewrite Hlen in Hfew.
    destruct (loop_proceeds h r (r_Dealers r) [] 0 Secret_Zero
                (PubPoly_InitNull (info_T (r_info r)) Point_Base) 0 Hall)
      as (share' & pub' & Hloop & _); [lia|apply length_replicate|].
    rewrite app_nil_r in Hloop. simpl in Hloop.
    rewrite (ProduceSharedSecret_of_loop _ _ _ _ _ Hne Hloop).
    rewrite decide_True by lia. done.
  - intros Herr. apply ProduceSharedSecret_NotEnough in Herr. tauto.
  - intros pre d post dl e Hds Hpre Hdl Hreveal.
    apply (ProduceSharedSecret_stops_at h r pre d post dl e); [done..| |done|done].
    pose proof (proceeds_revealed _ _ _ Hpre) as Hlen.
    unfold good_dealers in Hfew. rewrite Hds, omap_app, length_app in Hfew. lia.
  - intros out. unfold Receiver_ProduceSharedSecret.
    case_decide as Hlen.
    { intros [= <-]. left. split; [|done].
      destruct (r_Dealers r); [done|]. simpl in Hlen. lia. }
    assert (r_Dealers r ≠ []) as Hne.
    { intros Hnil. rewrite Hnil in Hlen. simpl in Hlen. lia. }
    destruct (ProduceSharedSecret_loop _ _ _ _ _ _ _)
      as [[[[share pub] g]|e]|] eqn:Hloop; [| |done].
    + apply loop_Ok in Hloop as (sel & Hsel & _ & _ & _ & -> & _).
      rewrite Z.sub_0_r in Hsel.
      pose proof (mapM_take_omap _ _ _ _ Hsel) as [Htake Hmin].
      apply (f_equal length) in Htake. rewrite length_take in Htake.
      unfold good_dealers in Hfew.
      rewrite decide_True by lia. intros [= <-]. right; left.
      split_and!; [done| |done].
      rewrite take_ge in Hsel by lia.
      apply mapM_Some in Hsel. clear -Hsel.
      induction Hsel; constructor; eauto.
    + intros [= <-]. right; right.
      apply loop_Err_inv in Hloop
        as (k & d & dl & cause & -> & Hk & Hd & Hrev & _ & Hall).
      exists k, d, dl, cause. rewrite Z.add_0_l. done.
Qed.

(** ** The index of a receiver *)

(** The errors of [ProduceResponse] are validation errors. *)
Lemma Promise_ProduceResponse_error (p : Promise) (index : Z) (key : KeyPair) err :
  (Promise_ProduceResponse p index key).2 = Some err → err = ErrValidation index.
Proof.
  unfold Promise_ProduceResponse.
  destruct (Promise_share p index) as [c|]; simpl; [|congruence].
  destruct (PubPoly_Check _ _ _); simpl; congruence.
Qed.

(** A call with the index the receiver holds, or on a receiver that holds
    the sentinel: the dealer is appended and the result of
    [ProduceResponse] is handed back as it is. *)
Lemma AddDealer_accepts h r index d dl :
  r_index r = index ∨ r_index r = -1 →
  h !! d = Some dl →
  Receiver_AddDealer h r index d
  = Return ({| r_info := r_info r; r_index := index; r_Key := r_Key r;
               r_Dealers := r_Dealers r ++ [d]; r_Secret := r_Secret r |},
            Promise_ProduceResponse (d_Promise dl) index (r_Key r)).
Proof.
  intros Hidx Hd. unfold Receiver_AddDealer.
  destruct (decide (r_index r = -1)) as [Hunbound|Hbound]; simpl.
  - rewrite decide_False by (intros Hne; by apply Hne).
    rewrite Hd. by destruct (Promise_ProduceResponse _ _ _).
  - destruct Hidx as [Hidx|]; [|done].
    rewrite decide_False by (intros Hne; by apply Hne).
    rewrite Hd, Hidx. by destruct (Promise_ProduceResponse _ _ _).
Qed.

(** A call with another index than the one the receiver is bound to. *)
Lemma AddDealer_rejects h r index d :
  r_index r ≠ -1 → r_index r ≠ index →
  Receiver_AddDealer h r index d
  = Return (r, (None, Some (ErrWrongIndex index (r_index r)))).
Proof.
  intros Hbound Hne. unfold Receiver_AddDealer.
  rewrite (decide_False (P := r_index r = -1)) by done.
  by rewrite decide_True.
Qed.

(** A receiver bound to an index stays bound to it. *)
Lemma AddDealer_keeps_index h r index d r' out :
  r_index r ≠ -1 →
  Receiver_AddDealer h r index d = Return (r', out) →
  r_index r' = r_index r.
Proof.
  intros Hbound. unfold Receiver_AddDealer.
  rewrite (decide_False (P := r_index r = -1)) by done.
  case_decide; [by intros [= <- _]|].
  destruct (h !! d) as [dl|]; [|done].
  destruct (Promise_ProduceResponse _ _ _). by intros [= <- _].
Qed.

Lemma AddDealers_keep_index r calls r' outs :
  r_index r ≠ -1 →
  Receiver_AddDealers r calls = Return (r', outs) →
  r_index r' = r_index r.
Proof.
  revert r outs. induction calls as [|[[h index] d] calls IH]; intros r outs Hbound; simpl.
  - by intros [= <- _].
  - destruct (Receiver_AddDealer h r index d) as [[r1 out]|] eqn:Hcall; [|done].
    destruct (Receiver_AddDealers r1 calls) as [[r2 outs']|] eqn:Hrest; [|done].
    intros [= <- _].
    pose proof (AddDealer_keeps_index _ _ _ _ _ _ Hbound Hcall) as Hr1.
    rewrite <-Hr1. apply (IH r1 outs'); [congruence|done].
Qed.

(** C4, as the code has it. For an index [i] other than the sentinel -1:
    the first [AddDealer(i, d)] of a receiver binds its index to [i]; after
    any further calls the index is still [i]; a call with an index [j]
    other than [i] then fails with the index-mismatch error and leaves the
    receiver as it is; a call with [i] again is never an index mismatch: it
    appends the dealer and returns what [ProduceResponse] returns. *)
Theorem AddDealer_index_binding r0 h i d r1 out calls rn outs h' j d' :
  i ≠ -1 →
  r_index r0 = -1 →
  Receiver_AddDealer h r0 i d = Return (r1, out) →
  Receiver_AddDealers r1 calls = Return (rn, outs) →
  r_index r1 = i
  ∧ r_index rn = i
  ∧ (j ≠ i →
     Receiver_AddDealer h' rn j d'
     = Return (rn, (None, Some (ErrWrongIndex j i))))
  ∧ (j = i → ∀ dl, h' !! d' = Some dl →
     ∃ rn',
       Receiver_AddDealer h' rn j d'
       = Return (rn', Promise_ProduceResponse (d_Promise dl) i (r_Key rn))
       ∧ r_index rn' = i
       ∧ r_Dealers rn' = r_Dealers rn ++ [d']
       ∧ ∀ a b, (Promise_ProduceResponse (d_Promise dl) i (r_Key rn)).2
                ≠ Some (ErrWrongIndex a b)).
Proof.
  intros Hi Hfresh Hfirst Hcalls.
  assert (r_index r1 = i) as Hr1.
  { revert Hfirst. unfold Receiver_AddDealer.
    rewrite (decide_True (P := r_index r0 = -1)) by done. simpl.
    rewrite decide_False by (intros Hne; by apply Hne).
    destruct (h !! d) as [dl|]; [|done].
    destruct (Promise_ProduceResponse _ _ _). by intros [= <- _]. }
  assert (r_index rn = i) as Hrn.
  { rewrite <-Hr1. apply (AddDealers_keep_index r1 calls rn outs); [congruence|done]. }
  split_and!; [done..| |].
  - intros Hj. rewrite (AddDealer_rejects h' rn j d'); [by rewrite Hrn|congruence..].
  - intros -> dl Hdl. eexists. split_and!.
    + apply AddDealer_accepts; [by left|done].
    + done.
    + done.
    + intros a b Herr. by apply Promise_ProduceResponse_error in Herr.
Qed.

(** C8. When [AddDealer] is called with the index the receiver is bound
    to (or on a receiver not bound yet), the dealer is appended to the list
    of accepted dealers whether [ProduceResponse] fails or not, and the
    call returns the response and the error of [ProduceResponse] as they
    are. *)
Theorem AddDealer_appends_always h r index d dl :
  r_index r = index ∨ r_index r = -1 →
  h !! d = Some dl →
  ∃ r',
    Receiver_AddDealer h r index d
    = Return (r', Promise_ProduceResponse (d_Promise dl) index (r_Key r))
    ∧ r_Dealers r' = r_Dealers r ++ [d]
    ∧ r_index r' = index
    ∧ r_info r' = r_info r ∧ r_Key r' = r_Key r.
Proof.
  intros Hidx Hd. eexists. split; [by apply AddDealer_accepts|]. done.
Qed.

(** C10. On a receiver that [Init] has just set up, [AddDealer] with the
    index -1 passes the index check (what it returns is what
    [ProduceResponse] returns, not an index mismatch) and leaves the index
    at -1; the next [AddDealer], with any index [j], passes the check as
    well and binds the receiver to [j]. *)
Theorem AddDealer_sentinel_index maxCap r0 info key r h d dl h' j d' dl' :
  Receiver_Init maxCap r0 info key = Return r →
  h !! d = Some dl →
  h' !! d' = Some dl' →
  ∃ r1 r2,
    Receiver_AddDealer h r (-1) d
    = Return (r1, Promise_ProduceResponse (d_Promise dl) (-1) key)
    ∧ r_index r1 = -1
    ∧ Receiver_AddDealer h' r1 j d'
      = Return (r2, Promise_ProduceResponse (d_Promise dl') j key)
    ∧ r_index r2 = j
    ∧ r_Dealers r2 = [d; d'].
Proof.
  unfold Receiver_Init. case_decide; [done|]. intros [= <-] Hd Hd'.
  eexists _, _. split_and!.
  - rewrite (AddDealer_accepts h _ (-1) d dl); [done|by left|done].
  - done.
  - rewrite (AddDealer_accepts h' _ j d' dl'); [done|by right|done].
  - done.
  - done.
Qed.

(** ** Certification of a dealer *)

Lemma State_AddResponse_spec (s s' : State) (i : Z) (response : Response) e :
  State_AddResponse s i response = (s', e) →
  st_Promise s' = st_Promise s
  ∧ st_responses s ⊆ st_responses s'
  ∧ State_count s' = State_count s + match e with None => 1 | Some _ => 0 end
  ∧ (e = None →
     st_responses s !! i = None
     ∧ Response_verify (st_Promise s) i response = true
     ∧ st_responses s' = <[i := response]> (st_responses s)).
Proof.
  unfold State_AddResponse, State_count.
  case_decide as Hrange; [|intros [= <- <-]; split_and!; [done..|lia|done]].
  destruct (st_responses s !! i) as [old|] eqn:Hi;
    [intros [= <- <-]; split_and!; [done..|lia|done]|].
  destruct (Response_verify _ _ _) eqn:Hv;
    [|intros [= <- <-]; split_and!; [done..|lia|done]].
  intros [= <- <-]. simpl. split_and!; [done| | |done].
  - by apply insert_subseteq.
  - rewrite map_size_insert_None by done. lia.
Qed.

(** An operation keeps every dealer where it is, with its promise, and
    removes no response. *)
Lemma step_dealer h h' d dl :
  step h h' → h !! d = Some dl →
  ∃ dl', h' !! d = Some dl'
         ∧ d_Promise dl' = d_Promise dl
         ∧ st_Promise (d_State dl') = st_Promise (d_State dl)
         ∧ st_responses (d_State dl) ⊆ st_responses (d_State dl').
Proof.
  intros Hstep Hd.
  destruct Hstep as [d0 i response h' e Hadd| | |]; [|by exists dl..].
  revert Hadd. unfold Dealer_AddResponse.
  destruct (h !! d0) as [dl0|] eqn:Hd0; [|done].
  destruct (State_AddResponse (d_State dl0) i response) as [st e0] eqn:Hst.
  intros [= <- <-].
  apply State_AddResponse_spec in Hst as (Hp & Hsub & _ & _).
  destruct (decide (d0 = d)) as [->|Hne].
  - rewrite lookup_insert_eq. eexists. split; [done|]. simpl.
    replace dl0 with dl in * by congruence. done.
  - rewrite lookup_insert_ne by done. by exists dl.
Qed.

Lemma steps_dealer h h' d dl :
  rtc step h h' → h !! d = Some dl →
  ∃ dl', h' !! d = Some dl'
         ∧ d_Promise dl' = d_Promise dl
         ∧ st_Promise (d_State dl') = st_Promise (d_State dl)
         ∧ st_responses (d_State dl) ⊆ st_responses (d_State dl').
Proof.
  intros Hsteps. revert dl.
  induction Hsteps as [h|h h1 h' Hstep _ IH]; intros dl Hd.
  - by exists dl.
  - destruct (step_dealer _ _ _ _ Hstep Hd) as (dl1 & Hd1 & Hp1 & Hs1 & Hr1).
    destruct (IH _ Hd1) as (dl' & Hd' & Hp' & Hs' & Hr').
    exists dl'. split_and!; [done|congruence|congruence|by etrans].
Qed.

Lemma Dealer_Certified_iff h d dl :
  h !! d = Some dl →
  Dealer_Certified h d = Return None
  ↔ p_r (st_Promise (d_State dl)) ≤ State_count (d_State dl).
Proof.
  intros Hd. unfold Dealer_Certified, State_PromiseCertified. rewrite Hd.
  case_decide; split; done.
Qed.

(** C9. [Dealer.Certified] returns what [State.PromiseCertified] returns:
    it succeeds exactly when the number of responses recorded for the
    dealer has reached [R].  That number changes through
    [Dealer.AddResponse] only, which adds one to it when it accepts a
    response (a valid one, for an index that had none) and leaves it
    otherwise; no operation removes a response.  So a dealer that is
    certified stays certified whatever operations follow. *)
Theorem Dealer_Certified_monotone h h' d dl :
  h !! d = Some dl →
  rtc step h h' →
  ∃ dl',
    h' !! d = Some dl'
    ∧ p_r (st_Promise (d_State dl')) = p_r (st_Promise (d_State dl))
    ∧ st_responses (d_State dl) ⊆ st_responses (d_State dl')
    ∧ (Dealer_Certified h d = Return None
       ↔ p_r (st_Promise (d_State dl)) ≤ State_count (d_State dl))
    ∧ (Dealer_Certified h' d = Return None
       ↔ p_r (st_Promise (d_State dl)) ≤ State_count (d_State dl'))
    ∧ (Dealer_Certified h d = Return None → Dealer_Certified h' d = Return None)
    ∧ (∀ i response h'' e,
         Dealer_AddResponse h' d i response = Return (h'', e) →
         ∃ dl'', h'' !! d = Some dl''
           ∧ State_count (d_State dl'')
             = State_count (d_State dl') + match e with None => 1 | Some _ => 0 end
           ∧ (e = None →
              st_responses (d_State dl') !! i = None
              ∧ Response_verify (st_Promise (d_State dl')) i response = true)).
Proof.
  intros Hd Hsteps.
  destruct (steps_dealer _ _ _ _ Hsteps Hd) as (dl' & Hd' & _ & Hp & Hsub).
  assert (State_count (d_State dl) ≤ State_count (d_State dl')) as Hcount.
  { unfold State_count. apply map_subseteq_size in Hsub. lia. }
  exists dl'. split_and!; [done|congruence|done| | | |].
  - by apply Dealer_Certified_iff.
  - rewrite <-Hp. by apply Dealer_Certified_iff.
  - rewrite (Dealer_Certified_iff h d dl Hd), (Dealer_Certified_iff h' d dl' Hd').
    rewrite Hp. lia.
  - intros i response h'' e. unfold Dealer_AddResponse. rewrite Hd'.
    destruct (State_AddResponse (d_State dl') i response) as [st e0] eqn:Hst.
    intros [= <- <-]. rewrite lookup_insert_eq. eexists. split; [done|]. simpl.
    apply State_AddResponse_spec in Hst as (_ & _ & Hc & He).
    split; [done|]. intros ->. destruct He as (? & ? & _); done.
Qed.

(** ** Two receivers *)

(** What two receivers obtain from the same dealers, one after the other,
    are the same polynomials. *)
Lemma same_polys h1 h2 r1 r2 (l : list loc) sel1 sel2 :
  rtc step h1 h2 →
  mapM (revealed h1 r1) l = Some sel1 →
  mapM (revealed h2 r2) l = Some sel2 →
  sel1.*2 = sel2.*2.
Proof.
  intros Hsteps H1 H2. apply mapM_Some in H1, H2.
  revert sel2 H2. induction H1 as [|d [s1 p1] l sel1 Hd1 _ IH]; intros sel2 H2.
  - by apply Forall2_nil_inv_l in H2 as ->.
  - apply Forall2_cons_inv_l in H2 as ([s2 p2] & sel2' & Hd2 & H2 & ->).
    simpl. f_equal; [|by apply IH].
    apply revealed_Some in Hd1 as (dl1 & Hl1 & _ & <-).
    apply revealed_Some in Hd2 as (dl2 & Hl2 & _ & <-).
    destruct (steps_dealer _ _ _ _ Hsteps Hl1) as (dl' & Hl' & Hp & _).
    congruence.
Qed.

(** C2, as the code has it. Two receivers with the same threshold [T]
    that accepted the same dealers in the same order, and for both of which
    [ProduceSharedSecret] succeeds (one call after the other, whatever
    operations come in between), get the same aggregate polynomial, and the
    share of each verifies against the polynomial of the other. *)
Theorem ProduceSharedSecret_agreement h1 h2 r1 r2 s1 s2 :
  rtc step h1 h2 →
  r_Dealers r1 = r_Dealers r2 →
  info_T (r_info r1) = info_T (r_info r2) →
  Receiver_ProduceSharedSecret h1 r1 = Return (Ok s1) →
  Receiver_ProduceSharedSecret h2 r2 = Return (Ok s2) →
  ss_Pub s1 = ss_Pub s2
  ∧ PubPoly_Check (ss_Pub s1) (r_index r2) (ss_Share s2) = true
  ∧ PubPoly_Check (ss_Pub s2) (r_index r1) (ss_Share s1) = true.
Proof.
  intros Hsteps Hds HT Hok1 Hok2.
  apply ProduceSharedSecret_Ok in Hok1 as (sh1 & pub1 & g1 & _ & Hloop1 & _ & Hc1 & ->).
  apply ProduceSharedSecret_Ok in Hok2 as (sh2 & pub2 & g2 & _ & Hloop2 & _ & Hc2 & ->).
  apply loop_Ok in Hloop1 as (sel1 & Hsel1 & _ & Hp1 & Hb1 & _ & _).
  apply loop_Ok in Hloop2 as (sel2 & Hsel2 & _ & Hp2 & Hb2 & _ & _).
  rewrite Hds, HT in Hsel1.
  pose proof (same_polys _ _ _ _ _ _ _ Hsteps Hsel1 Hsel2) as Hsame.
  assert (pub1 = pub2) as ->.
  { destruct pub1 as [b1 p1], pub2 as [b2 p2]. simpl in *.
    unfold add_polys in *. rewrite Hsame, HT in Hp1. congruence. }
  simpl. done.
Qed.

(** ** What the errors of [ProduceSharedSecret] tell *)

(** X1. A reveal error of [ProduceSharedSecret] can be trusted: it carries
    the index of the receiver and a position that is within the list of
    accepted dealers and below [T]; the dealer at that position is the one
    whose [RevealShare] failed, with the error that is reported as the
    cause; and every dealer before it revealed its share. *)
Theorem ProduceSharedSecret_reveal_error_sound h r receiver position cause :
  Receiver_ProduceSharedSecret h r
    = Return (Err (ErrReveal receiver position cause)) →
  receiver = r_index r
  ∧ 0 ≤ position < info_T (r_info r)
  ∧ ∃ d dl,
      r_Dealers r !! Z.to_nat position = Some d
      ∧ h !! d = Some dl
      ∧ State_RevealShare (d_State dl) (r_index r) (r_Key r) = Err cause
      ∧ Forall (λ d', is_Some (revealed h r d'))
          (take (Z.to_nat position) (r_Dealers r)).
Proof.
  unfold Receiver_ProduceSharedSecret. case_decide; [done|].
  destruct (ProduceSharedSecret_loop _ _ _ _ _ _ _)
    as [[[[share pub] g]|e]|] eqn:Hloop; [| |done].
  - case_decide; [done|]. by destruct (PubPoly_Check _ _ _).
  - intros [= ->].
    apply loop_Err_inv in Hloop
      as (k & d & dl & cause' & [= -> -> ->] & Hk & Hd & Hrev & HT & Hall).
    split_and!; [done|lia|lia|].
    exists d, dl. rewrite Z.add_0_l, Nat2Z.id. done.
Qed.

(** X2. [ProduceSharedSecret] fails with the no-dealer error when, and
    only when, the receiver has accepted no dealer; the store is not
    looked at. *)
Theorem ProduceSharedSecret_NoDealers_iff h r :
  Receiver_ProduceSharedSecret h r = Return (Err ErrNoDealers)
  ↔ r_Dealers r = [].
Proof.
  unfold Receiver_ProduceSharedSecret. split.
  - case_decide as Hlen.
    { intros _. destruct (r_Dealers r); [done|]. simpl in Hlen. lia. }
    destruct (ProduceSharedSecret_loop _ _ _ _ _ _ _)
      as [[[[share pub] g]|e]|] eqn:Hloop; [| |done].
    + case_decide; [done|]. by destruct (PubPoly_Check _ _ _).
    + intros [= ->]. by apply loop_Err in Hloop as (k & cause & [=]).
  - intros ->. done.
Qed.

(** X3. The consistency error comes only after the scan has gathered its
    [T] shares: the receiver has accepted at least [T] dealers (and at
    least one), the first [T] of them all revealed, and it is the sum of
    their shares that does not check against the sum of their
    polynomials. *)
Theorem ProduceSharedSecret_Check_error h r :
  Receiver_ProduceSharedSecret h r = Return (Err ErrCheck) →
  ∃ sel,
    mapM (revealed h r) (take (Z.to_nat (info_T (r_info r))) (r_Dealers r))
      = Some sel
    ∧ length sel = Z.to_nat (info_T (r_info r))
    ∧ (1 `max` Z.to_nat (info_T (r_info r)) ≤ length (r_Dealers r))%nat
    ∧ PubPoly_Check (aggregate_pub (info_T (r_info r)) sel) (r_index r)
        (aggregate_share sel) = false.
Proof.
  unfold Receiver_ProduceSharedSecret. case_decide as Hlen; [done|].
  destruct (ProduceSharedSecret_loop _ _ _ _ _ _ _)
    as [[[[share pub] g]|e]|] eqn:Hloop; [| |done].
  - case_decide as HT; [done|].
    destruct (PubPoly_Check pub (r_index r) share) eqn:Hcheck; [done|].
    intros _. apply loop_Ok in Hloop as (sel & Hsel & -> & Hp & Hb & -> & _).
    rewrite Z.sub_0_r in Hsel.
    pose proof (mapM_take_omap _ _ _ _ Hsel) as [_ Hmin].
    exists sel. split_and!; [done|lia|lia|].
    unfold aggregate_pub, aggregate_share.
    destruct pub as [b p]. simpl in *. by rewrite <-Hb, <-Hp.
  - intros [= ->]. by apply loop_Err in Hloop as (k & cause & [=]).
Qed.

(** ** Which dealers the scan reads *)

Lemma loop_frame h h' r ds index share pub g :
  (∀ d, d ∈ take (Z.to_nat (info_T (r_info r) - g)) ds → h !! d = h' !! d) →
  ProduceSharedSecret_loop h r ds index share pub g
  = ProduceSharedSecret_loop h' r ds index share pub g.
Proof.
  revert index share pub g.
  induction ds as [|d ds IH]; intros index share pub g Hsame; simpl; [done|].
  case_decide as Hg; [done|].
  replace (Z.to_nat (info_T (r_info r) - g))
    with (S (Z.to_nat (info_T (r_info r) - (g + 1)))) in Hsame by lia.
  simpl in Hsame.
  rewrite <-(Hsame d) by apply list_elem_of_here.
  destruct (h !! d) as [dl|]; [|done].
  destruct (State_RevealShare _ _ _) as [s|e]; [|done].
  destruct (PubPoly_Add _ _) as [pub'|]; [|done].
  apply IH. intros d' Hd'. apply Hsame. by apply list_elem_of_further.
Qed.

(** X4. [ProduceSharedSecret] reads the store at the first [T] accepted
    dealers only: two stores that hold the same dealers at these locations
    give the same result, whatever they hold (or do not hold) elsewhere. *)
Theorem ProduceSharedSecret_frame h h' r :
  Forall (λ d, h !! d = h' !! d)
    (take (Z.to_nat (info_T (r_info r))) (r_Dealers r)) →
  Receiver_ProduceSharedSecret h r = Receiver_ProduceSharedSecret h' r.
Proof.
  intros Hsame. rewrite Forall_forall in Hsame.
  unfold Receiver_ProduceSharedSecret.
  case_decide; [done|].
  rewrite (loop_frame h h'); [done|]. by rewrite Z.sub_0_r.
Qed.

(** With [T] good shares the loop is over, whatever dealers are left. *)
Lemma loop_done h r ds index share pub g :
  info_T (r_info r) ≤ g →
  ProduceSharedSecret_loop h r ds index share pub g
  = Return (Ok (share, pub, g)).
Proof.
  intros HT. destruct ds as [|d ds]; simpl; [done|].
  by rewrite decide_True by lia.
Qed.



(** X5. With the threshold [T] at zero, [ProduceSharedSecret] on a
    receiver that has accepted a dealer leaves the loop at its first test:
    it calls no [RevealShare] and reads no dealer, and what it returns is
    the polynomial of [InitNull] with no coefficient and the zero share,
    if these check, and the consistency error otherwise. *)
Theorem ProduceSharedSecret_threshold_0 h r :
  info_T (r_info r) = 0 →
  r_Dealers r ≠ [] →
  Receiver_ProduceSharedSecret h r
  = if PubPoly_Check (PubPoly_InitNull 0 Point_Base) (r_index r) Secret_Zero
    then Return (Ok {| ss_Pub := PubPoly_InitNull 0 Point_Base;
                       ss_Share := Secret_Zero; ss_Index := r_index r |})
    else Return (Err ErrCheck).
Proof.
  intros HT Hne.
  rewrite (ProduceSharedSecret_of_loop h r Secret_Zero
             (PubPoly_InitNull (info_T (r_info r)) Point_Base) 0 Hne).
  - rewrite decide_False by lia. by rewrite HT.
  - apply loop_done. lia.
Qed.

(** X6. A location that holds no dealer makes [ProduceSharedSecret] panic
    when the scan gets to it. *)
Theorem ProduceSharedSecret_nil_dealer h r pre d post :
  r_Dealers r = pre ++ d :: post →
  Forall (proceeds h r) pre →
  Z.of_nat (length pre) < info_T (r_info r) →
  h !! d = None →
  Receiver_ProduceSharedSecret h r = Panicked.
Proof.
  intros Hds Hpre HT Hd. unfold Receiver_ProduceSharedSecret.
  rewrite Hds. rewrite decide_False; last first.
  { rewrite length_app. simpl. lia. }
  destruct (loop_proceeds h r pre (d :: post) 0 Secret_Zero
              (PubPoly_InitNull (info_T (r_info r)) Point_Base) 0)
    as (share' & pub' & -> & _); [done|lia|apply length_replicate|].
  simpl. rewrite decide_False by lia. by rewrite Hd.
Qed.

(** The loop looks at the dealers it still needs, and at no more. *)
Lemma loop_take h r ds index share pub g :
  ProduceSharedSecret_loop h r ds index share pub g
  = ProduceSharedSecret_loop h r
      (take (Z.to_nat (info_T (r_info r) - g)) ds) index share pub g.
Proof.
  revert index share pub g.
  induction ds as [|d ds IH]; intros index share pub g.
  - by rewrite take_nil.
  - destruct (decide (g >= info_T (r_info r))) as [Hg|Hg].
    + replace (Z.to_nat (info_T (r_info r) - g)) with 0%nat by lia.
      simpl. rewrite (decide_True (P := g >= info_T (r_info r))) by done. done.
    + replace (Z.to_nat (info_T (r_info r) - g))
        with (S (Z.to_nat (info_T (r_info r) - (g + 1)))) by lia.
      simpl. rewrite !(decide_False (P := g >= info_T (r_info r))) by done.
      destruct (h !! d) as [dl|]; [|done].
      destruct (State_RevealShare _ _ _) as [s|e]; [|done].
      destruct (PubPoly_Add _ _) as [pub'|]; [|done]. apply IH.
Qed.

(** X8. The result of [ProduceSharedSecret] depends on the list of
    accepted dealers through its first [T] entries only (and through its
    being empty or not): two receivers with the same threshold, index and
    key whose lists agree on the first [T] entries get the same result,
    whatever dealers, and in whatever order, come after. *)
Theorem ProduceSharedSecret_prefix h r ds ds' :
  take (Z.to_nat (info_T (r_info r))) ds = take (Z.to_nat (info_T (r_info r))) ds' →
  (ds = [] ↔ ds' = []) →
  Receiver_ProduceSharedSecret h (with_Dealers r ds)
  = Receiver_ProduceSharedSecret h (with_Dealers r ds').
Proof.
  intros Htake Hnil. unfold Receiver_ProduceSharedSecret.
  change (r_Dealers (with_Dealers r ds)) with ds.
  change (r_Dealers (with_Dealers r ds')) with ds'.
  change (r_info (with_Dealers r ds)) with (r_info r).
  change (r_info (with_Dealers r ds')) with (r_info r).
  change (r_index (with_Dealers r ds)) with (r_index r).
  change (r_index (with_Dealers r ds')) with (r_index r).
  rewrite !loop_with_Dealers.
  rewrite (loop_take h r ds), (loop_take h r ds'), Z.sub_0_r, Htake.
  destruct ds as [|d ds], ds' as [|d' ds']; [done| | |done].
  - destruct Hnil as [Hnil _]. by specialize (Hnil eq_refl).
  - destruct Hnil as [_ Hnil]. by specialize (Hnil eq_refl).
Qed.

(** ** More on [AddDealer] *)

(** One call on a receiver that is bound. *)
Lemma AddDealer_bound h r index d r' out :
  r_index r ≠ -1 →
  Receiver_AddDealer h r index d = Return (r', out) →
  r_index r' = r_index r ∧ r_info r' = r_info r ∧ r_Key r' = r_Key r
  ∧ r_Secret r' = r_Secret r
  ∧ r_Dealers r' = r_Dealers r ++ (if decide (index = r_index r) then [d] else []).
Proof.
  intros Hbound. unfold Receiver_AddDealer.
  rewrite (decide_False (P := r_index r = -1)) by done.
  case_decide as Hne.
  - intros [= <- _]. rewrite decide_False by done. by rewrite app_nil_r.
  - destruct (h !! d) as [dl|]; [|done].
    destruct (Promise_ProduceResponse _ _ _). intros [= <- _]. simpl.
    rewrite decide_True; [done|]. by destruct (decide (r_index r = index)).
Qed.

(** X9. On a receiver bound to an index, a sequence of [AddDealer] calls
    that does not panic appends the dealers of the calls made with that
    index, in the order of the calls and with repetitions, and nothing
    else; the dealers accepted before stay in front, and the index, the
    configuration and the key do not change. *)
Theorem AddDealers_bound_accepts r calls r' outs :
  r_index r ≠ -1 →
  Receiver_AddDealers r calls = Return (r', outs) →
  r_Dealers r'
    = r_Dealers r ++ (filter (λ c, c.1.2 = r_index r) calls).*2
  ∧ r_index r' = r_index r ∧ r_info r' = r_info r ∧ r_Key r' = r_Key r
  ∧ length outs = length calls.
Proof.
  revert r outs.
  induction calls as [|[[h index] d] calls IH]; intros r outs Hbound; simpl.
  - intros [= <- <-]. by rewrite app_nil_r.
  - destruct (Receiver_AddDealer h r index d) as [[r1 out]|] eqn:Hcall; [|done].
    destruct (Receiver_AddDealers r1 calls) as [[r2 outs']|] eqn:Hrest; [|done].
    intros [= <- <-].
    apply AddDealer_bound in Hcall as (Hi & Hinfo & Hkey & _ & Hds); [|done].
    apply IH in Hrest as (Hds' & Hi' & Hinfo' & Hkey' & Hlen); [|congruence].
    split_and!; [|congruence..|simpl; congruence].
    rewrite Hds', Hds, Hi, <-(assoc_L (++)). f_equal.
    rewrite filter_cons. simpl. by case_decide.
Qed.

(** X10. After a sequence of [AddDealer] calls that does not panic, a
    receiver that was bound holds the index it had, and a receiver that
    was unbound holds the first index asked for that is not -1 (it is
    still unbound if there is none). *)
Theorem AddDealers_index r calls r' outs :
  Receiver_AddDealers r calls = Return (r', outs) →
  r_index r' = bound_after (r_index r) ((λ c, c.1.2) <$> calls).
Proof.
  revert r outs.
  induction calls as [|[[h index] d] calls IH]; intros r outs; simpl.
  - intros [= <- _]. unfold bound_after. by case_decide.
  - destruct (Receiver_AddDealer h r index d) as [[r1 out]|] eqn:Hcall; [|done].
    destruct (Receiver_AddDealers r1 calls) as [[r2 outs']|] eqn:Hrest; [|done].
    intros [= <- _]. apply IH in Hrest. rewrite Hrest.
    unfold bound_after at 2.
    destruct (decide (r_index r = -1)) as [Hunbound|Hbound].
    + assert (r_index r1 = index) as ->.
      { revert Hcall. unfold Receiver_AddDealer.
        rewrite (decide_True (P := r_index r = -1)) by done. simpl.
        rewrite decide_False by (intros Hne; by apply Hne).
        destruct (h !! d) as [dl|]; [|done].
        destruct (Promise_ProduceResponse _ _ _). by intros [= <- _]. }
      unfold bound_after. rewrite filter_cons.
      destruct (decide (index = -1)) as [->|Hindex].
      * by rewrite decide_False by (intros Hne; by apply Hne).
      * by rewrite decide_True by done.
    + apply AddDealer_keeps_index in Hcall; [|done].
      unfold bound_after. rewrite Hcall. by rewrite decide_False.
Qed.

(** X12. Whatever a receiver was before, once [Init] has returned it has
    no dealer and no index: [ProduceSharedSecret] fails with the no-dealer
    error on any store, and the next [AddDealer], with any index and any
    dealer of the store, passes the index check and leaves the receiver
    with that index and that dealer alone. *)
Theorem Init_forgets maxCap r0 info key r h :
  Receiver_Init maxCap r0 info key = Return r →
  Receiver_ProduceSharedSecret h r = Return (Err ErrNoDealers)
  ∧ ∀ index d dl, h !! d = Some dl →
      ∃ r',
        Receiver_AddDealer h r index d
        = Return (r', Promise_ProduceResponse (d_Promise dl) index key)
        ∧ r_index r' = index ∧ r_Dealers r' = [d]
        ∧ r_info r' = info ∧ r_Key r' = key.
Proof.
  unfold Receiver_Init. case_decide; [done|]. intros [= <-]. split; [done|].
  intros index d dl Hd. eexists. split.
  - rewrite (AddDealer_accepts h _ index d dl); [done|by right|done].
  - done.
Qed.

(** ** More on [Dealer.AddResponse] *)

(** X11. When [Dealer.AddResponse] returns, whether it accepted the
    response or not, the store holds dealers at the same locations as
    before; the dealer has kept its configuration and its promise; every
    other dealer is untouched, so that [Dealer.Certified] says of it what
    it said; and [ProduceSharedSecret] returns what it returned for every
    receiver that does not have the dealer among its first [T]. *)
Theorem Dealer_AddResponse_frame h d i response h' e :
  Dealer_AddResponse h d i response = Return (h', e) →
  dom h' = dom h
  ∧ (∃ dl dl', h !! d = Some dl ∧ h' !! d = Some dl'
       ∧ d_info dl' = d_info dl ∧ d_Promise dl' = d_Promise dl)
  ∧ (∀ d', d' ≠ d →
       h' !! d' = h !! d' ∧ Dealer_Certified h' d' = Dealer_Certified h d')
  ∧ (∀ r, d ∉ take (Z.to_nat (info_T (r_info r))) (r_Dealers r) →
       Receiver_ProduceSharedSecret h' r = Receiver_ProduceSharedSecret h r).
Proof.
  unfold Dealer_AddResponse. destruct (h !! d) as [dl|] eqn:Hd; [|done].
  destruct (State_AddResponse (d_State dl) i response) as [st e0].
  intros [= <- <-]. split_and!.
  - rewrite dom_insert_L. apply subseteq_union_1_L, singleton_subseteq_l.
    by apply elem_of_dom_2 in Hd.
  - eexists _, _. rewrite lookup_insert_eq. done.
  - intros d' Hne. unfold Dealer_Certified.
    by rewrite lookup_insert_ne by done.
  - intros r Hnotin. unfold Receiver_ProduceSharedSecret.
    case_decide; [done|].
    rewrite (loop_frame _ h); [done|].
    intros d' Hd'. rewrite Z.sub_0_r in Hd'.
    apply lookup_insert_ne. by intros ->.
Qed.

(** X13. [AddDealer] accepts no nil dealer: if every dealer a receiver
    has accepted is in the store, this is still so after any operations
    on the store followed by an [AddDealer] that returns, whether it
    appended the dealer or refused the index. *)
Theorem AddDealer_keeps_allocated h h' r index d r' out :
  Forall (λ d', is_Some (h !! d')) (r_Dealers r) →
  rtc step h h' →
  Receiver_AddDealer h' r index d = Return (r', out) →
  Forall (λ d', is_Some (h' !! d')) (r_Dealers r').
Proof.
  intros Hall Hsteps.
  assert (Forall (λ d', is_Some (h' !! d')) (r_Dealers r)) as Hall'.
  { eapply Forall_impl; [exact Hall|]. intros d' [dl Hd'].
    destruct (steps_dealer _ _ _ _ Hsteps Hd') as (dl' & -> & _). eauto. }
  unfold Receiver_AddDealer.
  destruct (decide (r_index r = -1)); simpl.
  - case_decide; [by intros [= <- _]|].
    destruct (h' !! d) as [dl|] eqn:Hd; [|done].
    destruct (Promise_ProduceResponse _ _ _). intros [= <- _]. simpl.
    apply Forall_app. split; [done|]. constructor; [by eauto|constructor].
  - case_decide; [by intros [= <- _]|].
    destruct (h' !! d) as [dl|] eqn:Hd; [|done].
    destruct (Promise_ProduceResponse _ _ _). intros [= <- _]. simpl.
    apply Forall_app. split; [done|]. constructor; [by eauto|constructor].
Qed.

End Properties.

(** * The properties on the instance *)

Lemma ProduceSharedSecret_checked_witness :
  Receiver_ProduceSharedSecret Z11.certified Z11.receiver0 = Return (Ok Z11.secret0)
  ∧ (PubPoly_Check (ss_Pub Z11.secret0) (ss_Index Z11.secret0) (ss_Share Z11.secret0)
     = true
     ∧ ss_Index Z11.secret0 = r_index Z11.receiver0)
  ∧ Receiver_ProduceSharedSecret Z11.certified Z11.receiver_wrong_key
    = Return (Err ErrCheck).
Proof.
  assert (Receiver_ProduceSharedSecret Z11.certified Z11.receiver0
          = Return (Ok Z11.secret0)) as Hok by reflexivity.
  split; [exact Hok|]. split.
  - exact (proj1 (ProduceSharedSecret_checked _ _) _ Hok).
  - apply (proj2 (ProduceSharedSecret_checked Z11.certified Z11.receiver_wrong_key)
             10 (Z11.poly [1; 4]) 2).
    + vm_compute; discriminate.
    + reflexivity.
    + reflexivity.
    + reflexivity.
Defined.

Lemma ProduceSharedSecret_first_T_witness :
  Receiver_ProduceSharedSecret Z11.certified Z11.receiver0 = Return (Ok Z11.secret0)
  ∧ take 2 (good_dealers Z11.certified Z11.receiver0)
    = [(5, (Z11.poly [5; 6])); (7, (Z11.poly [7; 9]))]
  ∧ ss_Share Z11.secret0
    = add_shares Secret_Zero (take 2 (good_dealers Z11.certified Z11.receiver0))
  ∧ pp_p (ss_Pub Z11.secret0)
    = add_polys (replicate 2 Point_Null)
        (take 2 (good_dealers Z11.certified Z11.receiver0)).
Proof.
  assert (Receiver_ProduceSharedSecret Z11.certified Z11.receiver0
          = Return (Ok Z11.secret0)) as Hok by reflexivity.
  destruct (ProduceSharedSecret_first_T _ _ _ Hok) as (_ & _ & Hshare & _ & Hpub & _).
  split_and!; [exact Hok|reflexivity|exact Hshare|exact Hpub].
Defined.

(** In [mixed] the dealer at 1 lets the scan of the receiver at 0 go on. *)
Lemma mixed_proceeds : Forall (proceeds Z11.mixed Z11.receiver0) [1%positive].
Proof.
  constructor; [|constructor].
  exists 5, (Z11.poly [5; 6]). split; reflexivity.
Qed.

Lemma ProduceSharedSecret_reveal_error_witness :
  r_Dealers Z11.receiver0 = [1; 2; 3]%positive
  ∧ Dealer_Certified Z11.mixed 2%positive = Return (Some (ErrCertification 0 3))
  ∧ ∃ position,
      Receiver_ProduceSharedSecret Z11.mixed Z11.receiver0
      = Return (Err (ErrReveal (r_index Z11.receiver0) position
                       (ErrCertification 0 3)))
      ∧ position = 1
      ∧ r_Dealers Z11.receiver0 !! Z.to_nat position = Some 2%positive.
Proof.
  split_and!; [reflexivity..|].
  apply (ProduceSharedSecret_reveal_error Z11.mixed Z11.receiver0
           [1%positive] 2%positive [3%positive] Z11.dealer1 (ErrCertification 0 3)).
  - reflexivity.
  - exact mixed_proceeds.
  - reflexivity.
  - reflexivity.
  - reflexivity.
Defined.

(** C5, as the claim words it, fails: the dealers at 1 and 3 reveal, the
    dealer at 2 does not; skipping it would give a shared secret from the
    dealers at 1 and 3, and the code returns the reveal error of position 1. *)
Lemma ProduceSharedSecret_skipping_counterexample :
  is_Some (revealed Z11.mixed Z11.receiver0 1%positive)
  ∧ revealed Z11.mixed Z11.receiver0 2%positive = None
  ∧ is_Some (revealed Z11.mixed Z11.receiver0 3%positive)
  ∧ Receiver_ProduceSharedSecret_skipping Z11.mixed Z11.receiver0
    = Return (Ok {| ss_Pub := (Z11.poly [9; 2]);
                    ss_Share := 9; ss_Index := 0 |})
  ∧ Receiver_ProduceSharedSecret Z11.mixed Z11.receiver0
    = Return (Err (ErrReveal 0 1 (ErrCertification 0 3)))
  ∧ Receiver_ProduceSharedSecret Z11.mixed Z11.receiver0
    ≠ Receiver_ProduceSharedSecret_skipping Z11.mixed Z11.receiver0.
Proof.
  assert (Receiver_ProduceSharedSecret_skipping Z11.mixed Z11.receiver0
          = Return (Ok {| ss_Pub := (Z11.poly [9; 2]);
                          ss_Share := 9; ss_Index := 0 |})) as Hskip by reflexivity.
  assert (Receiver_ProduceSharedSecret Z11.mixed Z11.receiver0
          = Return (Err (ErrReveal 0 1 (ErrCertification 0 3)))) as Hcode by reflexivity.
  split_and!; [|reflexivity| |exact Hskip|exact Hcode|].
  - exists (5, Z11.poly [5; 6]). reflexivity.
  - exists (4, Z11.poly [4; 7]). reflexivity.
  - rewrite Hskip, Hcode. discriminate.
Qed.

Lemma ProduceSharedSecret_does_not_skip_witness :
  Receiver_ProduceSharedSecret Z11.mixed Z11.receiver0
    = Return (Err (ErrReveal (r_index Z11.receiver0)
                     (Z.of_nat (length [1%positive])) (ErrCertification 0 3)))
  ∧ (∀ ss, Receiver_ProduceSharedSecret Z11.mixed Z11.receiver0 ≠ Return (Ok ss))
  ∧ Receiver_ProduceSharedSecret Z11.mixed
      (with_Dealers Z11.receiver0 ([1%positive] ++ 2%positive :: []))
    = Receiver_ProduceSharedSecret Z11.mixed Z11.receiver0.
Proof.
  destruct (ProduceSharedSecret_does_not_skip Z11.mixed Z11.receiver0
              [1%positive] 2%positive [3%positive] Z11.dealer1 (ErrCertification 0 3))
    as (Herr & Hno & Hsame & _).
  - reflexivity.
  - exact mixed_proceeds.
  - reflexivity.
  - reflexivity.
  - reflexivity.
  - split_and!; [exact Herr|exact Hno|exact (Hsame [])].
Defined.

(** C7, as the claim words it, fails: no accepted dealer yields a good
    share, the threshold is 2, and the error is the reveal error of the
    dealer at position 0, not the error of too few shares. *)
Lemma ProduceSharedSecret_insufficient_counterexample :
  Z.of_nat (length (good_dealers Z11.store0 Z11.receiver_early))
    < info_T (r_info Z11.receiver_early)
  ∧ Receiver_ProduceSharedSecret Z11.store0 Z11.receiver_early
    = Return (Err (ErrReveal 0 0 (ErrCertification 0 3)))
  ∧ Receiver_ProduceSharedSecret Z11.store0 Z11.receiver_early
    ≠ Return (Err ErrNotEnoughShares).
Proof.
  assert (Receiver_ProduceSharedSecret Z11.store0 Z11.receiver_early
          = Return (Err (ErrReveal 0 0 (ErrCertification 0 3)))) as Hcode by reflexivity.
  split_and!; [reflexivity|exact Hcode|]. rewrite Hcode. discriminate.
Qed.

Lemma ProduceSharedSecret_insufficient_witness :
  (Z.of_nat (length (good_dealers Z11.store0 Z11.receiver_early))
     < info_T (r_info Z11.receiver_early)
   ∧ (∀ ss, Receiver_ProduceSharedSecret Z11.store0 Z11.receiver_early
            ≠ Return (Ok ss))
   ∧ Receiver_ProduceSharedSecret Z11.store0 Z11.receiver_early
     = Return (Err (ErrReveal (r_index Z11.receiver_early) 0
                      (ErrCertification 0 3))))
  ∧ (Z.of_nat (length (good_dealers Z11.certified Z11.receiver_single))
       < info_T (r_info Z11.receiver_single)
     ∧ r_Dealers Z11.receiver_single = [1%positive]
     ∧ Receiver_ProduceSharedSecret Z11.certified Z11.receiver_single
       = Return (Err ErrNotEnoughShares)).
Proof.
  assert (Z.of_nat (length (good_dealers Z11.store0 Z11.receiver_early))
          < info_T (r_info Z11.receiver_early)) as Hearly by reflexivity.
  assert (Z.of_nat (length (good_dealers Z11.certified Z11.receiver_single))
          < info_T (r_info Z11.receiver_single)) as Hsingle by reflexivity.
  split.
  - destruct (ProduceSharedSecret_insufficient _ _ Hearly)
      as (Hno & _ & _ & _ & Hreveal & _).
    split_and!; [exact Hearly|exact Hno|].
    apply (Hreveal [] 1%positive [2%positive] Z11.dealer0 (ErrCertification 0 3)).
    + reflexivity.
    + constructor.
    + reflexivity.
    + reflexivity.
  - destruct (ProduceSharedSecret_insufficient _ _ Hsingle)
      as (_ & _ & Hfew & _).
    split_and!; [exact Hsingle|reflexivity|].
    apply Hfew.
    + vm_compute; discriminate.
    + change (Forall (proceeds Z11.certified Z11.receiver_single) [1%positive]).
      constructor; [|constructor].
      exists 5, (Z11.poly [5; 6]). split; reflexivity.
Defined.

(** C4, as the claim words it, fails at the index -1: the first call, with
    -1, leaves the receiver unbound, and the next call, with the index 0
    that is distinct from -1, is no index mismatch: it binds the receiver
    to 0 and returns a response. *)
Lemma AddDealer_index_binding_counterexample :
  r_index (Z11.fresh 1) = -1
  ∧ Receiver_AddDealer Z11.store0 (Z11.fresh 1) (-1) 1%positive
    = Return (with_Dealers (Z11.fresh 1) [1%positive],
              (None, Some (ErrValidation (-1))))
  ∧ 0 ≠ -1
  ∧ Receiver_AddDealer Z11.store0 (with_Dealers (Z11.fresh 1) [1%positive]) 0 2%positive
    = Return ({| r_info := Z11.info; r_index := 0; r_Key := Z11.key 1;
                 r_Dealers := [1; 2]%positive; r_Secret := None |},
              (Some (0, 1), None)).
Proof.
  split_and!; [reflexivity..|discriminate|reflexivity].
Qed.

Lemma AddDealer_index_binding_witness :
  r_index (Z11.fresh 1) = -1
  ∧ r_index Z11.receiver_early = 0
  ∧ Receiver_AddDealer Z11.certified Z11.receiver_early 1 3%positive
    = Return (Z11.receiver_early, (None, Some (ErrWrongIndex 1 0))).
Proof.
  assert (r_index (Z11.fresh 1) = -1) as Hfresh by reflexivity.
  destruct (AddDealer_index_binding (Z11.fresh 1) Z11.store0 0 1%positive
              (with_Dealers (Z11.receiver_early) [1%positive]) (Some (0, 1), None)
              [(Z11.store0, 0, 2%positive)] Z11.receiver_early [(Some (0, 1), None)]
              Z11.certified 1 3%positive)
    as (_ & Hrn & Hreject & _).
  - discriminate.
  - exact Hfresh.
  - reflexivity.
  - reflexivity.
  - split_and!; [exact Hfresh|exact Hrn|]. apply Hreject. discriminate.
Defined.

Lemma AddDealer_appends_always_witness :
  r_index Z11.receiver_wrong_key = 0
  ∧ Promise_ProduceResponse (d_Promise (Z11.at_loc Z11.certified 3%positive)) 0
      (r_Key Z11.receiver_wrong_key)
    = (None, Some (ErrValidation 0))
  ∧ ∃ r',
      Receiver_AddDealer Z11.certified Z11.receiver_wrong_key 0 3%positive
      = Return (r', Promise_ProduceResponse
                      (d_Promise (Z11.at_loc Z11.certified 3%positive)) 0
                      (r_Key Z11.receiver_wrong_key))
      ∧ r_Dealers r' = [1; 2]%positive ++ [3%positive].
Proof.
  split_and!; [reflexivity..|].
  destruct (AddDealer_appends_always Z11.certified Z11.receiver_wrong_key 0
              3%positive (Z11.at_loc Z11.certified 3%positive))
    as (r' & Hcall & Hds & _).
  - left. reflexivity.
  - reflexivity.
  - exists r'. split; [exact Hcall|exact Hds].
Defined.

Lemma AddDealer_sentinel_index_witness :
  ∃ r1 r2,
    Receiver_AddDealer Z11.store0 (Z11.fresh 1) (-1) 1%positive
    = Return (r1, Promise_ProduceResponse (d_Promise Z11.dealer0) (-1) (Z11.key 1))
    ∧ r_index r1 = -1
    ∧ Receiver_AddDealer Z11.store0 r1 2 2%positive
      = Return (r2, Promise_ProduceResponse (d_Promise Z11.dealer1) 2 (Z11.key 1))
    ∧ r_index r2 = 2
    ∧ r_Dealers r2 = [1; 2]%positive.
Proof.
  apply (AddDealer_sentinel_index Z11.maxCap
           {| r_info := mkPolyInfo 0 0 0; r_index := 0; r_Key := Z11.key 1;
              r_Dealers := []; r_Secret := None |}
           Z11.info (Z11.key 1) (Z11.fresh 1)
           Z11.store0 1%positive Z11.dealer0 Z11.store0 2 2%positive Z11.dealer1).
  - reflexivity.
  - reflexivity.
  - reflexivity.
Defined.

(** The three answers of the receiver at 2 take [almost] to [certified]. *)
Lemma almost_certified : rtc step Z11.almost Z11.certified.
Proof.
  apply (rtc_l _ _ (Z11.answered Z11.almost 1%positive)).
  { apply (step_AddResponse Z11.almost 1%positive 2 (2, 3) _ None). reflexivity. }
  apply (rtc_l _ _ (Z11.answered (Z11.answered Z11.almost 1%positive) 2%positive)).
  { apply (step_AddResponse (Z11.answered Z11.almost 1%positive) 2%positive 2
             (2, 3) _ None). reflexivity. }
  apply (rtc_l _ _ Z11.certified).
  { apply (step_AddResponse
             (Z11.answered (Z11.answered Z11.almost 1%positive) 2%positive)
             3%positive 2 (2, 3) _ None). reflexivity. }
  apply rtc_refl.
Qed.

Lemma Dealer_Certified_monotone_witness :
  Dealer_Certified Z11.almost 1%positive = Return (Some (ErrCertification 2 3))
  ∧ Dealer_Certified Z11.certified 1%positive = Return None
  ∧ ∃ dl',
      Z11.certified !! 1%positive = Some dl'
      ∧ st_responses (d_State (Z11.at_loc Z11.almost 1%positive))
        ⊆ st_responses (d_State dl')
      ∧ (Dealer_Certified Z11.certified 1%positive = Return None
         ↔ p_r (st_Promise (d_State (Z11.at_loc Z11.almost 1%positive)))
           ≤ State_count (d_State dl')).
Proof.
  split_and!; [reflexivity..|].
  destruct (Dealer_Certified_monotone Z11.almost Z11.certified 1%positive
              (Z11.at_loc Z11.almost 1%positive))
    as (dl' & Hd' & _ & Hsub & _ & Hiff & _).
  - reflexivity.
  - exact almost_certified.
  - exists dl'. split_and!; [exact Hd'|exact Hsub|exact Hiff].
Defined.

Lemma ProduceSharedSecret_agreement_witness :
  Receiver_ProduceSharedSecret Z11.certified Z11.receiver0 = Return (Ok Z11.secret0)
  ∧ Receiver_ProduceSharedSecret Z11.certified Z11.receiver1 = Return (Ok Z11.secret1)
  ∧ ss_Pub Z11.secret0 = ss_Pub Z11.secret1
  ∧ PubPoly_Check (ss_Pub Z11.secret0) (r_index Z11.receiver1) (ss_Share Z11.secret1)
    = true
  ∧ PubPoly_Check (ss_Pub Z11.secret1) (r_index Z11.receiver0) (ss_Share Z11.secret0)
    = true.
Proof.
  assert (Receiver_ProduceSharedSecret Z11.certified Z11.receiver0
          = Return (Ok Z11.secret0)) as Hok0 by reflexivity.
  assert (Receiver_ProduceSharedSecret Z11.certified Z11.receiver1
          = Return (Ok Z11.secret1)) as Hok1 by reflexivity.
  split; [exact Hok0|]. split; [exact Hok1|].
  apply (ProduceSharedSecret_agreement Z11.certified Z11.certified
           Z11.receiver0 Z11.receiver1 Z11.secret0 Z11.secret1).
  - apply rtc_refl.
  - reflexivity.
  - reflexivity.
  - exact Hok0.
  - exact Hok1.
Defined.

(** C2, as the claim words it, fails: the receivers at 0 and at 1 accepted
    the same set of dealers, the one in the order 1, 2, 3 and the other in
    the order 3, 2, 1; the threshold is 2 for both and both calls succeed;
    the aggregate polynomials differ, and the share of the first does not
    verify against the polynomial of the second. *)
Lemma ProduceSharedSecret_agreement_counterexample :
  r_Dealers Z11.receiver0 = [1; 2; 3]%positive
  ∧ r_Dealers Z11.receiver1_reversed = [3; 2; 1]%positive
  ∧ list_to_set (r_Dealers Z11.receiver0)
      =@{gset loc} list_to_set (r_Dealers Z11.receiver1_reversed)
  ∧ r_info Z11.receiver0 = r_info Z11.receiver1_reversed
  ∧ Receiver_ProduceSharedSecret Z11.certified Z11.receiver0 = Return (Ok Z11.secret0)
  ∧ Receiver_ProduceSharedSecret Z11.certified Z11.receiver1_reversed
    = Return (Ok Z11.secret1_reversed)
  ∧ ss_Pub Z11.secret0 ≠ ss_Pub Z11.secret1_reversed
  ∧ PubPoly_Check (ss_Pub Z11.secret1_reversed) (r_index Z11.receiver0)
      (ss_Share Z11.secret0) = false.
Proof.
  split_and!; [reflexivity..| |reflexivity].
  intros Hpub. apply (f_equal pp_p) in Hpub. vm_compute in Hpub. discriminate.
Qed.

(** ** The further properties on the instance *)

Lemma ProduceSharedSecret_reveal_error_sound_witness :
  Receiver_ProduceSharedSecret Z11.mixed Z11.receiver0
    = Return (Err (ErrReveal 0 1 (ErrCertification 0 3)))
  ∧ 0 ≤ 1 < info_T (r_info Z11.receiver0)
  ∧ ∃ d dl,
      r_Dealers Z11.receiver0 !! Z.to_nat 1 = Some d
      ∧ Z11.mixed !! d = Some dl
      ∧ State_RevealShare (d_State dl) (r_index Z11.receiver0)
          (r_Key Z11.receiver0) = Err (ErrCertification 0 3)
      ∧ Forall (λ d', is_Some (revealed Z11.mixed Z11.receiver0 d'))
          (take (Z.to_nat 1) (r_Dealers Z11.receiver0)).
Proof.
  assert (Receiver_ProduceSharedSecret Z11.mixed Z11.receiver0
          = Return (Err (ErrReveal 0 1 (ErrCertification 0 3)))) as Herr
    by reflexivity.
  split; [exact Herr|].
  exact (proj2 (ProduceSharedSecret_reveal_error_sound _ _ _ _ _ Herr)).
Defined.

Lemma ProduceSharedSecret_NoDealers_iff_witness :
  r_Dealers (Z11.fresh 1) = []
  ∧ Receiver_ProduceSharedSecret Z11.certified (Z11.fresh 1)
    = Return (Err ErrNoDealers).
Proof.
  assert (r_Dealers (Z11.fresh 1) = []) as Hnone by reflexivity.
  split; [exact Hnone|].
  exact (proj2 (ProduceSharedSecret_NoDealers_iff Z11.certified (Z11.fresh 1)) Hnone).
Defined.

Lemma ProduceSharedSecret_Check_error_witness :
  Receiver_ProduceSharedSecret Z11.certified Z11.receiver_wrong_key
    = Return (Err ErrCheck)
  ∧ ∃ sel,
      mapM (revealed Z11.certified Z11.receiver_wrong_key)
        (take (Z.to_nat (info_T (r_info Z11.receiver_wrong_key)))
           (r_Dealers Z11.receiver_wrong_key)) = Some sel
      ∧ length sel = Z.to_nat (info_T (r_info Z11.receiver_wrong_key))
      ∧ (1 `max` Z.to_nat (info_T (r_info Z11.receiver_wrong_key))
         ≤ length (r_Dealers Z11.receiver_wrong_key))%nat
      ∧ PubPoly_Check (aggregate_pub (info_T (r_info Z11.receiver_wrong_key)) sel)
          (r_index Z11.receiver_wrong_key) (aggregate_share sel) = false.
Proof.
  assert (Receiver_ProduceSharedSecret Z11.certified Z11.receiver_wrong_key
          = Return (Err ErrCheck)) as Herr by reflexivity.
  split; [exact Herr|].
  exact (ProduceSharedSecret_Check_error _ _ Herr).
Defined.

Lemma ProduceSharedSecret_frame_witness :
  Z11.without3 !! 3%positive = None
  ∧ is_Some (Z11.certified !! 3%positive)
  ∧ Receiver_ProduceSharedSecret Z11.certified Z11.receiver0
    = Receiver_ProduceSharedSecret Z11.without3 Z11.receiver0.
Proof.
  split_and!; [reflexivity|exists (Z11.at_loc Z11.certified 3%positive); reflexivity|].
  apply (ProduceSharedSecret_frame Z11.certified Z11.without3 Z11.receiver0).
  change (Forall (λ d, Z11.certified !! d = Z11.without3 !! d) [1; 2]%positive).
  constructor; [reflexivity|]. constructor; [reflexivity|]. constructor.
Defined.


Lemma ProduceSharedSecret_threshold_0_witness :
  info_T (r_info Z11.receiver_T0) = 0
  ∧ r_Dealers Z11.receiver_T0 = [1%positive]
  ∧ Receiver_ProduceSharedSecret ∅ Z11.receiver_T0
    = Return (Ok {| ss_Pub := Z11.poly []; ss_Share := 0; ss_Index := 0 |}).
Proof.
  split_and!; [reflexivity..|].
  rewrite (ProduceSharedSecret_threshold_0 ∅ Z11.receiver_T0).
  - reflexivity.
  - reflexivity.
  - vm_compute; discriminate.
Defined.

Lemma ProduceSharedSecret_nil_dealer_witness :
  Z11.without3 !! 3%positive = None
  ∧ Receiver_ProduceSharedSecret Z11.without3
      (with_Dealers Z11.receiver0 [1; 3; 2]%positive) = Panicked.
Proof.
  split; [reflexivity|].
  apply (ProduceSharedSecret_nil_dealer Z11.without3
           (with_Dealers Z11.receiver0 [1; 3; 2]%positive)
           [1%positive] 3%positive [2%positive]).
  - reflexivity.
  - constructor; [|constructor]. exists 5, (Z11.poly [5; 6]). split; reflexivity.
  - reflexivity.
  - reflexivity.
Defined.

Lemma AddDealers_bound_accepts_witness :
  r_Dealers Z11.receiver_early = [1; 2]%positive
  ∧ ∃ r',
      Receiver_AddDealers Z11.receiver_early
        [(Z11.certified, 0, 3%positive); (Z11.certified, 1, 1%positive);
         (Z11.certified, 0, 3%positive)]
      = Return (r', [(Some (0, 1), None); (None, Some (ErrWrongIndex 1 0));
                     (Some (0, 1), None)])
      ∧ r_Dealers r' = [1; 2]%positive ++ [3; 3]%positive.
Proof.
  split; [reflexivity|].
  exists {| r_info := Z11.info; r_index := 0; r_Key := Z11.key 1;
            r_Dealers := [1; 2; 3; 3]%positive; r_Secret := None |}.
  assert (Receiver_AddDealers Z11.receiver_early
            [(Z11.certified, 0, 3%positive); (Z11.certified, 1, 1%positive);
             (Z11.certified, 0, 3%positive)]
          = Return ({| r_info := Z11.info; r_index := 0; r_Key := Z11.key 1;
                       r_Dealers := [1; 2; 3; 3]%positive; r_Secret := None |},
                    [(Some (0, 1), None); (None, Some (ErrWrongIndex 1 0));
                     (Some (0, 1), None)])) as Hrun by reflexivity.
  split; [exact Hrun|].
  exact (proj1 (AddDealers_bound_accepts Z11.receiver_early _ _ _
                  ltac:(vm_compute; discriminate) Hrun)).
Defined.

Lemma AddDealers_index_witness :
  r_index (Z11.fresh 1) = -1
  ∧ Receiver_AddDealers (Z11.fresh 1)
      [(Z11.store0, -1, 1%positive); (Z11.store0, 2, 2%positive);
       (Z11.store0, 0, 3%positive)]
    = Return ({| r_info := Z11.info; r_index := 2; r_Key := Z11.key 1;
                 r_Dealers := [1; 2]%positive; r_Secret := None |},
              [(None, Some (ErrValidation (-1))); (None, Some (ErrValidation 2));
               (None, Some (ErrWrongIndex 0 2))])
  ∧ bound_after (-1) [-1; 2; 0] = 2.
Proof.
  assert (Receiver_AddDealers (Z11.fresh 1)
            [(Z11.store0, -1, 1%positive); (Z11.store0, 2, 2%positive);
             (Z11.store0, 0, 3%positive)]
          = Return ({| r_info := Z11.info; r_index := 2; r_Key := Z11.key 1;
                       r_Dealers := [1; 2]%positive; r_Secret := None |},
                    [(None, Some (ErrValidation (-1)));
                     (None, Some (ErrValidation 2));
                     (None, Some (ErrWrongIndex 0 2))])) as Hrun by reflexivity.
  split_and!; [reflexivity|exact Hrun|].
  symmetry. exact (AddDealers_index _ _ _ _ Hrun).
Defined.

Lemma Init_forgets_witness :
  r_index Z11.receiver0 = 0
  ∧ r_Dealers Z11.receiver0 = [1; 2; 3]%positive
  ∧ Receiver_Init Z11.maxCap Z11.receiver0 Z11.info (Z11.key 1)
    = Return (Z11.fresh 1)
  ∧ Receiver_ProduceSharedSecret Z11.certified (Z11.fresh 1)
    = Return (Err ErrNoDealers).
Proof.
  assert (Receiver_Init Z11.maxCap Z11.receiver0 Z11.info (Z11.key 1)
          = Return (Z11.fresh 1)) as Hinit by reflexivity.
  split_and!; [reflexivity..|exact Hinit|].
  exact (proj1 (Init_forgets _ _ _ _ _ Z11.certified Hinit)).
Defined.

Lemma Dealer_AddResponse_frame_witness :
  Dealer_AddResponse Z11.almost 1%positive 2 (2, 3)
    = Return (Z11.answered Z11.almost 1%positive, None)
  ∧ Dealer_Certified Z11.almost 1%positive = Return (Some (ErrCertification 2 3))
  ∧ Dealer_Certified (Z11.answered Z11.almost 1%positive) 1%positive = Return None
  ∧ Dealer_Certified (Z11.answered Z11.almost 1%positive) 2%positive
    = Dealer_Certified Z11.almost 2%positive.
Proof.
  assert (Dealer_AddResponse Z11.almost 1%positive 2 (2, 3)
          = Return (Z11.answered Z11.almost 1%positive, None)) as Hadd
    by reflexivity.
  split_and!; [exact Hadd|reflexivity..|].
  destruct (Dealer_AddResponse_frame Z11.almost 1%positive 2 (2, 3) _ _ Hadd)
    as (_ & _ & Hother & _).
  apply (Hother 2%positive). discriminate.
Defined.

Lemma ProduceSharedSecret_prefix_witness :
  Receiver_ProduceSharedSecret Z11.certified
    (with_Dealers Z11.receiver0 [1; 2; 3]%positive)
  = Receiver_ProduceSharedSecret Z11.certified
      (with_Dealers Z11.receiver0 [1; 2; 2; 1; 4]%positive).
Proof.
  apply (ProduceSharedSecret_prefix Z11.certified Z11.receiver0).
  - reflexivity.
  - split; discriminate.
Defined.

Lemma AddDealer_keeps_allocated_witness :
  Forall (λ d', is_Some (Z11.certified !! d')) [1; 2; 3]%positive.
Proof.
  apply (AddDealer_keeps_allocated Z11.almost Z11.certified Z11.receiver_early 0
           3%positive
           {| r_info := Z11.info; r_index := 0; r_Key := Z11.key 1;
              r_Dealers := [1; 2; 3]%positive; r_Secret := None |}
           (Some (0, 1), None)).
  - change (Forall (λ d', is_Some (Z11.almost !! d')) [1; 2]%positive).
    constructor; [exists (Z11.at_loc Z11.almost 1%positive); reflexivity|].
    constructor; [exists (Z11.at_loc Z11.almost 2%positive); reflexivity|].
    constructor.
  - exact almost_certified.
  - reflexivity.
Defined.
